(** * Sliding-window deauthentication detector: the detection engine

    A shallow embedding of [DeauthDetector] from [deauth_detector.py]
    (the methods [process_event], [print_event], [generate_alert],
    [print_alert] and [get_stats]) together with the parts of Python's
    [dict], [collections.defaultdict] and [collections.Counter] they use.

    Conventions.
    - Python [int] is [Z]; [len] returns a [Z].
    - The readings of [time.time()] are taken as [Z] clock ticks (any fixed
      unit), and [window] is expressed in the same unit; the rounding of
      floating-point subtraction is not modelled.  The reading used by one
      call of [process_event] is an argument of the model, [current_time].
    - [str] is [string]; the key of the window store is the formatted string
      [source->dest], exactly as the code builds it.
    - Methods are computations in a state-and-exception monad over the
      detector object.
    - [print] is taken to write its text; a console that refuses it (an
      encoding error, a closed stream) is outside the model. *)

From Stdlib Require Import ZArith String Ascii List Lia Sorted Permutation.
From stdpp Require Import base decidable option list gmap strings fin_maps sorting.

Local Open Scope string_scope.
Local Open Scope list_scope.
Local Open Scope Z_scope.

(** ** Python values *)

(** [len(l)] *)
Definition len {A : Type} (l : list A) : Z := Z.of_nat (length l).

(** The character U+2192 (rightwards arrow) of the alert description, as its
    three UTF-8 bytes. *)
Definition arrow : string :=
  String (ascii_of_nat 226) (String (ascii_of_nat 134) (String (ascii_of_nat 146) EmptyString)).

(** Exceptions a dictionary access can raise. *)
Inductive exn : Type :=
| KeyError (key : string).

Inductive result (A : Type) : Type :=
| Ok (a : A)
| Raise (e : exn).
Arguments Ok {A} a.
Arguments Raise {A} e.

(** ** Dictionaries

    [d[k]] on any [dict] looks the key up and, when it is absent, calls the
    class's [__missing__] hook; a plain [dict] raises [KeyError] there. *)
Section Getitem.
Context {D V : Type}.
Variable lookup_key : string -> D -> option V.
Variable missing : string -> D -> result (V * D).

Definition getitem (k : string) (d : D) : result (V * D) :=
  match lookup_key k d with
  | Some v => Ok (v, d)
  | None => missing k d
  end.
End Getitem.

(** An insertion-ordered dictionary with string keys: the entries in the
  order in which their keys were first set.  [Counter] is a subclass of
  [dict], and its iteration order is what [most_common] sees. *)
Module OrderedDict.
Section Ops.
Context {V : Type}.

Fixpoint get (k : string) (d : list (string * V)) : option V :=
  match d with
  | [] => None
  | (k', v) :: d' => if decide (k = k') then Some v else get k d'
  end.

(** [d[k] = v]: an existing key keeps its position, a new key goes last. *)
Fixpoint set (k : string) (v : V) (d : list (string * V)) : list (string * V) :=
  match d with
  | [] => [(k, v)]
  | (k', v') :: d' =>
      if decide (k = k') then (k, v) :: d' else (k', v') :: set k v d'
  end.

Definition dict_missing (k : string) (d : list (string * V)) : result (V * list (string * V)) :=
  Raise (KeyError k).
End Ops.
End OrderedDict.

(** [collections.Counter]: [__missing__] returns 0 and stores nothing. *)
Module Counter.
Definition t : Type := list (string * Z).

Definition empty : t := [].

Definition missing (k : string) (c : t) : result (Z * t) := Ok (0, c).

Definition getitem (k : string) (c : t) : result (Z * t) :=
  getitem OrderedDict.get missing k c.

Definition setitem (k : string) (v : Z) (c : t) : t := OrderedDict.set k v c.

(** [c[k] += 1] *)
Definition incr (k : string) (c : t) : result t :=
  match getitem k c with
  | Ok (n, c') => Ok (setitem k (n + 1) c')
  | Raise e => Raise e
  end.

(** The count read without the exception wrapper: 0 for an absent key. *)
Definition count (k : string) (c : t) : Z := default 0 (OrderedDict.get k c).

(** [sum(c.values())] *)
Definition total (c : t) : Z := foldr Z.add 0 (c.*2).

(** [sorted(items, key=itemgetter(1), reverse=True)]: a stable sort by
    descending count, so entries with equal counts keep their order.  [ins]
    puts an entry that came earlier in front of the entries it ties with. *)
Fixpoint ins (x : string * Z) (l : list (string * Z)) : list (string * Z) :=
  match l with
  | [] => [x]
  | y :: l' => if decide (x.2 < y.2) then y :: ins x l' else x :: y :: l'
  end.

Fixpoint sorted_desc (l : list (string * Z)) : list (string * Z) :=
  match l with
  | [] => []
  | x :: l' => ins x (sorted_desc l')
  end.

(** [c.most_common(n)], that is [heapq.nlargest(n, c.items(), key=itemgetter(1))],
    which is [sorted(c.items(), key=itemgetter(1), reverse=True)[:n]]. *)
Definition most_common (n : nat) (c : t) : list (string * Z) :=
  take n (sorted_desc c).
End Counter.

(** [collections.defaultdict(list)]: [__missing__] stores and returns a new
    empty list. *)
Module DefaultDict.
Definition missing (k : string) (d : gmap string (list Z)) : result (list Z * gmap string (list Z)) :=
  Ok ([], <[k := []]> d).

Definition getitem (k : string) (d : gmap string (list Z)) : result (list Z * gmap string (list Z)) :=
  getitem (fun k d => d !! k) missing k d.

Definition setitem (k : string) (v : list Z) (d : gmap string (list Z)) : gmap string (list Z) :=
  <[k := v]> d.
End DefaultDict.

(** ** Data classes *)

Module DeauthEvent.
Record t : Type := mk {
  timestamp : string;
  source_mac : string;
  dest_mac : string;
  bssid : string;
  frame_type : string;
  reason_code : Z;
  channel : option Z
}.
End DeauthEvent.

Module Alert.
Record t : Type := mk {
  timestamp : string;
  severity : string;
  attack_type : string;
  source_mac : string;
  target_mac : string;
  bssid : string;
  frame_count : Z;
  description : string
}.
End Alert.

(** What [print_event] and [print_alert] write to the console, kept by what
    the text is computed from: the event, or the alert and [self.window]. *)
Inductive Output : Type :=
| PrintedEvent (e : DeauthEvent.t)
| PrintedAlert (a : Alert.t) (window : Z).

(** ** The detector object *)

(** The attributes set by [__init__], and the console as [stdout]. *)
Record DeauthDetector : Type := mkDeauthDetector {
  interface : string;
  threshold : Z;
  window : Z;
  events : list DeauthEvent.t;
  alerts : list Alert.t;
  running : bool;
  deauth_counts : gmap string (list Z);
  source_counts : Counter.t;
  target_counts : Counter.t;
  stdout : list Output
}.

(** [DeauthDetector(interface, threshold, window)] *)
Definition init (interface : string) (threshold window : Z) : DeauthDetector :=
  {| interface := interface; threshold := threshold; window := window;
     events := []; alerts := []; running := false;
     deauth_counts := ∅; source_counts := Counter.empty;
     target_counts := Counter.empty; stdout := [] |}.

Definition set_events (v : list DeauthEvent.t) (s : DeauthDetector) : DeauthDetector :=
  {| interface := interface s; threshold := threshold s; window := window s;
     events := v; alerts := alerts s; running := running s;
     deauth_counts := deauth_counts s; source_counts := source_counts s;
     target_counts := target_counts s; stdout := stdout s |}.

Definition set_alerts (v : list Alert.t) (s : DeauthDetector) : DeauthDetector :=
  {| interface := interface s; threshold := threshold s; window := window s;
     events := events s; alerts := v; running := running s;
     deauth_counts := deauth_counts s; source_counts := source_counts s;
     target_counts := target_counts s; stdout := stdout s |}.

Definition set_deauth_counts (v : gmap string (list Z)) (s : DeauthDetector) : DeauthDetector :=
  {| interface := interface s; threshold := threshold s; window := window s;
     events := events s; alerts := alerts s; running := running s;
     deauth_counts := v; source_counts := source_counts s;
     target_counts := target_counts s; stdout := stdout s |}.

Definition set_source_counts (v : Counter.t) (s : DeauthDetector) : DeauthDetector :=
  {| interface := interface s; threshold := threshold s; window := window s;
     events := events s; alerts := alerts s; running := running s;
     deauth_counts := deauth_counts s; source_counts := v;
     target_counts := target_counts s; stdout := stdout s |}.

Definition set_target_counts (v : Counter.t) (s : DeauthDetector) : DeauthDetector :=
  {| interface := interface s; threshold := threshold s; window := window s;
     events := events s; alerts := alerts s; running := running s;
     deauth_counts := deauth_counts s; source_counts := source_counts s;
     target_counts := v; stdout := stdout s |}.

Definition set_stdout (v : list Output) (s : DeauthDetector) : DeauthDetector :=
  {| interface := interface s; threshold := threshold s; window := window s;
     events := events s; alerts := alerts s; running := running s;
     deauth_counts := deauth_counts s; source_counts := source_counts s;
     target_counts := target_counts s; stdout := v |}.

(** ** Methods as computations on the object *)

Definition M (A : Type) : Type := DeauthDetector -> result (A * DeauthDetector).

#[global] Instance M_ret : MRet M := fun A a self => Ok (a, self).

#[global] Instance M_bind : MBind M := fun A B f c self =>
  match c self with
  | Ok (a, self') => f a self'
  | Raise e => Raise e
  end.

(** Read an attribute; update the object. *)
Definition attr {A : Type} (f : DeauthDetector -> A) : M A :=
  fun self => Ok (f self, self).

Definition update (f : DeauthDetector -> DeauthDetector) : M unit :=
  fun self => Ok (tt, f self).

(** [self.source_counts[k] += 1] and [self.target_counts[k] += 1] *)
Definition source_counts_incr (k : string) : M unit :=
  fun self =>
    match Counter.incr k (source_counts self) with
    | Ok c => Ok (tt, set_source_counts c self)
    | Raise e => Raise e
    end.

Definition target_counts_incr (k : string) : M unit :=
  fun self =>
    match Counter.incr k (target_counts self) with
    | Ok c => Ok (tt, set_target_counts c self)
    | Raise e => Raise e
    end.

(** [self.deauth_counts[key]]: the list stored at [key]; an absent key is
    given the empty list first. *)
Definition deauth_counts_getitem (key : string) : M (list Z) :=
  fun self =>
    match DefaultDict.getitem key (deauth_counts self) with
    | Ok (l, d) => Ok (l, set_deauth_counts d self)
    | Raise e => Raise e
    end.

(** [self.deauth_counts[key] = l]; also the effect of mutating the stored
    list in place. *)
Definition deauth_counts_setitem (key : string) (l : list Z) : M unit :=
  update (fun self => set_deauth_counts (DefaultDict.setitem key l (deauth_counts self)) self).

Definition print (o : Output) : M unit :=
  update (fun self => set_stdout (stdout self ++ [o]) self).

Definition print_event (event : DeauthEvent.t) : M unit :=
  print (PrintedEvent event).

Definition print_alert (alert : Alert.t) : M unit :=
  w ← attr window;
  print (PrintedAlert alert w).

Definition broadcast : string := "ff:ff:ff:ff:ff:ff".

(** The alert that [generate_alert] builds: the classification by the
    destination address, then the [Alert(...)] constructor call. *)
Definition new_alert (event : DeauthEvent.t) (count : Z) : Alert.t :=
  let '(attack_type, severity, description) :=
    if decide (DeauthEvent.dest_mac event = broadcast) then
      ("Broadcast Deauth Attack", "critical",
       "Broadcast deauth flood from " +:+ DeauthEvent.source_mac event)
    else
      ("Targeted Deauth Attack", "high",
       "Targeted deauth attack: " +:+ DeauthEvent.source_mac event +:+ " " +:+ arrow
          +:+ " " +:+ DeauthEvent.dest_mac event) in
  {| Alert.timestamp := DeauthEvent.timestamp event;
     Alert.severity := severity;
     Alert.attack_type := attack_type;
     Alert.source_mac := DeauthEvent.source_mac event;
     Alert.target_mac := DeauthEvent.dest_mac event;
     Alert.bssid := DeauthEvent.bssid event;
     Alert.frame_count := count;
     Alert.description := description |}.

Definition generate_alert (event : DeauthEvent.t) (count : Z) : M unit :=
  let alert := new_alert event count in
  update (fun self => set_alerts (alerts self ++ [alert]) self) ;;
  print_alert alert.

(** The key of the window store: [f"{event.source_mac}->{event.dest_mac}"]. *)
Definition key_of (event : DeauthEvent.t) : string :=
  DeauthEvent.source_mac event +:+ "->" +:+ DeauthEvent.dest_mac event.

(** [process_event(event)], where [current_time] is what [time.time()]
    returns in this call. *)
Definition process_event (event : DeauthEvent.t) (current_time : Z) : M unit :=
  update (fun self => set_events (events self ++ [event]) self) ;;
  source_counts_incr (DeauthEvent.source_mac event) ;;
  target_counts_incr (DeauthEvent.dest_mac event) ;;
  let key := key_of event in
  l ← deauth_counts_getitem key;
  deauth_counts_setitem key (l ++ [current_time]) ;;
  l ← deauth_counts_getitem key;
  w ← attr window;
  deauth_counts_setitem key (filter (fun t => current_time - t < w) l) ;;
  print_event event ;;
  l ← deauth_counts_getitem key;
  th ← attr threshold;
  if decide (th <= len l) then
    l ← deauth_counts_getitem key;
    generate_alert event (len l)
  else mret tt.

Record Stats : Type := mkStats {
  total_events : Z;
  total_alerts : Z;
  unique_sources : Z;
  unique_targets : Z;
  top_sources : list (string * Z);
  top_targets : list (string * Z)
}.

Definition get_stats : M Stats :=
  ev ← attr events;
  al ← attr alerts;
  sc ← attr source_counts;
  tc ← attr target_counts;
  mret {| total_events := len ev;
         total_alerts := len al;
         unique_sources := len sc;
         unique_targets := len tc;
         top_sources := Counter.most_common 5 sc;
         top_targets := Counter.most_common 5 tc |}.

(** A feed: the events handed to [process_event], each with the clock
    reading of its call. *)
Fixpoint run (feed : list (DeauthEvent.t * Z)) : M unit :=
  match feed with
  | [] => mret tt
  | (event, current_time) :: feed' =>
      process_event event current_time ;; run feed'
  end.

(** ** The demonstration of [demo_mode] *)

Definition demo_event (src dst ftype : string) : DeauthEvent.t :=
  {| DeauthEvent.timestamp := "2024-01-01T00:00:00";
     DeauthEvent.source_mac := src; DeauthEvent.dest_mac := dst;
     DeauthEvent.bssid := src; DeauthEvent.frame_type := ftype;
     DeauthEvent.reason_code := 1; DeauthEvent.channel := None |}.

(** The eight events of [demo_mode], half a second apart; the clock ticks
    are half seconds, so the window of 10 seconds is 20 ticks. *)
Definition demo_feed : list (DeauthEvent.t * Z) :=
  [ (demo_event "aa:bb:cc:dd:ee:01" "11:22:33:44:55:66" "deauth", 0);
    (demo_event "aa:bb:cc:dd:ee:01" "11:22:33:44:55:66" "deauth", 1);
    (demo_event "aa:bb:cc:dd:ee:02" "ff:ff:ff:ff:ff:ff" "deauth", 2);
    (demo_event "aa:bb:cc:dd:ee:01" "11:22:33:44:55:66" "deauth", 3);
    (demo_event "aa:bb:cc:dd:ee:02" "ff:ff:ff:ff:ff:ff" "deauth", 4);
    (demo_event "aa:bb:cc:dd:ee:02" "ff:ff:ff:ff:ff:ff" "deauth", 5);
    (demo_event "aa:bb:cc:dd:ee:03" "77:88:99:aa:bb:cc" "disassoc", 6);
    (demo_event "aa:bb:cc:dd:ee:01" "11:22:33:44:55:66" "deauth", 7) ].

Definition demo_detector : DeauthDetector := init "demo" 3 20.

(** Four of the demonstration's events on one key, one tick apart. *)
Definition burst_feed : list (DeauthEvent.t * Z) :=
  [ (demo_event "aa:bb:cc:dd:ee:01" "11:22:33:44:55:66" "deauth", 0);
    (demo_event "aa:bb:cc:dd:ee:01" "11:22:33:44:55:66" "deauth", 1);
    (demo_event "aa:bb:cc:dd:ee:01" "11:22:33:44:55:66" "disassoc", 2);
    (demo_event "aa:bb:cc:dd:ee:01" "11:22:33:44:55:66" "deauth", 3) ].

(** One pair of addresses seen at clock readings that go back once: 100,
    then 3, then 105. *)
Definition clock_back_feed : list (DeauthEvent.t * Z) :=
  [ (demo_event "aa:bb:cc:dd:ee:01" "11:22:33:44:55:66" "deauth", 100);
    (demo_event "aa:bb:cc:dd:ee:01" "11:22:33:44:55:66" "deauth", 3) ].

(** Six events from six sources to one destination. *)
Definition six_sources_feed : list (DeauthEvent.t * Z) :=
  [ (demo_event "aa:bb:cc:dd:ee:01" "11:22:33:44:55:66" "deauth", 0);
    (demo_event "aa:bb:cc:dd:ee:02" "11:22:33:44:55:66" "deauth", 1);
    (demo_event "aa:bb:cc:dd:ee:03" "11:22:33:44:55:66" "deauth", 2);
    (demo_event "aa:bb:cc:dd:ee:04" "11:22:33:44:55:66" "deauth", 3);
    (demo_event "aa:bb:cc:dd:ee:05" "11:22:33:44:55:66" "deauth", 4);
    (demo_event "aa:bb:cc:dd:ee:06" "11:22:33:44:55:66" "deauth", 5) ].

(** An event no parser would hand over: empty addresses and a frame type
    that is neither deauth nor disassoc; and the same with a known type. *)
Definition odd_event (ftype : string) : DeauthEvent.t :=
  {| DeauthEvent.timestamp := ""; DeauthEvent.source_mac := "";
     DeauthEvent.dest_mac := ""; DeauthEvent.bssid := "";
     DeauthEvent.frame_type := ftype; DeauthEvent.reason_code := -1;
     DeauthEvent.channel := None |}.

(** A detector that has counted three sources and holds, at one key, the
    readings left by [clock_back_feed]. *)
Definition used_detector : DeauthDetector :=
  set_deauth_counts {[ "aa:bb:cc:dd:ee:01->11:22:33:44:55:66" := [100; 3] ]}
    (set_source_counts
       [("aa:bb:cc:dd:ee:03", 1); ("aa:bb:cc:dd:ee:01", 2); ("aa:bb:cc:dd:ee:02", 1)]
       (init "wlan0" 10 10)).

(** ** Parsing a captured line

    [parse_frame] works on the text of one line.  Its string operations are
    modelled for ASCII text, one [ascii] for each character, which is what
    the statements about it assume of the line ([ascii_text]). *)

(** All characters are below 128. *)
Fixpoint ascii_text (s : string) : bool :=
  match s with
  | EmptyString => true
  | String c s' => (nat_of_ascii c <? 128)%nat && ascii_text s'
  end.

(** The ASCII characters [str.split()] separates at: tab to carriage
    return, the four separators 28 to 31, and the space. *)
Definition is_space (c : ascii) : bool :=
  ((9 <=? nat_of_ascii c)%nat && (nat_of_ascii c <=? 13)%nat)
  || ((28 <=? nat_of_ascii c)%nat && (nat_of_ascii c <=? 32)%nat).

(** [s.split()]: the maximal runs of characters that are not whitespace.
    [word] is the run read so far. *)
Fixpoint split_from (word : string) (s : string) : list string :=
  match s with
  | EmptyString => if decide (word = "") then [] else [word]
  | String c s' =>
      if is_space c then
        (if decide (word = "") then [] else [word]) ++ split_from "" s'
      else split_from (word +:+ String c "") s'
  end.

Definition split (s : string) : list string := split_from "" s.

(** [s.lower()] *)
Definition lower_char (c : ascii) : ascii :=
  if ((65 <=? nat_of_ascii c)%nat && (nat_of_ascii c <=? 90)%nat)
  then ascii_of_nat (nat_of_ascii c + 32) else c.

Fixpoint lower (s : string) : string :=
  match s with
  | EmptyString => EmptyString
  | String c s' => String (lower_char c) (lower s')
  end.

(** [s.count(c)] for a character [c] *)
Fixpoint count_char (c : ascii) (s : string) : nat :=
  match s with
  | EmptyString => 0
  | String c' s' => (if decide (c' = c) then 1 else 0) + count_char c s'
  end.

(** [sub in s] *)
Fixpoint str_in (sub s : string) : bool :=
  String.prefix sub s
  || match s with
     | EmptyString => false
     | String _ s' => str_in sub s'
     end.

(** [len(part) == 17 and part.count(':') == 5] *)
Definition mac_shaped (part : string) : bool :=
  (String.length part =? 17)%nat && (count_char ":" part =? 5)%nat.

(** The body of [parse_frame], where [now_iso] is what
    [datetime.now().isoformat()] returns and [current_time] what
    [time.time()] returns inside [process_event].  The test
    [len(macs) >= 2] and the reads [macs[0]], [macs[1]] and [macs[2]] are
    the match on the list. *)
Definition parse_frame_body (line now_iso : string) (current_time : Z) : M unit :=
  let parts := split line in
  let frame_type := if str_in "Deauthentication" line then "deauth" else "disassoc" in
  let macs := lower <$> filter (fun part => mac_shaped part) parts in
  match macs with
  | mac0 :: mac1 :: macs' =>
      let event :=
        {| DeauthEvent.timestamp := now_iso;
           DeauthEvent.source_mac := mac0;
           DeauthEvent.dest_mac := mac1;
           DeauthEvent.bssid := match macs' with mac2 :: _ => mac2 | [] => mac0 end;
           DeauthEvent.frame_type := frame_type;
           DeauthEvent.reason_code := 0;
           DeauthEvent.channel := None |} in
      process_event event current_time
  | _ => mret tt
  end.

(** [parse_frame]: the body inside [try: ... except Exception: pass].  An
    exception would leave the object as the body had changed it up to
    there; [Raise] carries no object, so the handler resumes here from the
    object at entry.  The body raises nothing (see [parse_frame_body_ok]),
    so the handler is never entered. *)
Definition parse_frame (line now_iso : string) (current_time : Z) : M unit :=
  fun self =>
    match parse_frame_body line now_iso current_time self with
    | Ok r => Ok r
    | Raise _ => Ok (tt, self)
    end.

(** The loop of [start_monitor] over the lines [readline] returns while
    [running] stays set, each with the clock values of its turn:
    [if line: self.parse_frame(line)].  The capture process, the banner and
    the interrupt are outside the model. *)
Fixpoint monitor_loop (reads : list (string * string * Z)) : M unit :=
  match reads with
  | [] => mret tt
  | (line, now_iso, current_time) :: reads' =>
      (if decide (line = "") then mret tt else parse_frame line now_iso current_time) ;;
      monitor_loop reads'
  end.

(** ** The saved report of [main] *)

(** [l[-n:]] for a positive [n]: the last [n] elements, all of [l] when it
    has fewer. *)
Definition last_n {A : Type} (n : nat) (l : list A) : list A :=
  drop (length l - n) l.

(** The dictionary [main] hands to [json.dump]; [asdict] turns each record
    into a dictionary of the same fields, which is the record here. *)
Record Report : Type := mkReport {
  report_stats : Stats;
  report_alerts : list Alert.t;
  report_events : list DeauthEvent.t
}.

Definition main_output : M Report :=
  stats ← get_stats;
  al ← attr alerts;
  ev ← attr events;
  mret {| report_stats := stats; report_alerts := al; report_events := last_n 100 ev |}.

(** ** [demo_mode] *)



(** A line in the form [parse_frame] looks for, and one without
    addresses. *)
Definition sample_line : string :=
  "12:00:01.123456 AA:BB:CC:DD:EE:01 > FF:FF:FF:FF:FF:FF Deauthentication: reason 7".

Definition sample_noise : string := "listening on wlan0mon".

(** [sample_line] in lower case. *)
Definition sample_line_lower : string :=
  "12:00:01.123456 aa:bb:cc:dd:ee:01 > ff:ff:ff:ff:ff:ff deauthentication: reason 7".

(** Four turns of the monitor loop: a frame, a line without addresses, an
    empty read, and the frame again. *)
Definition sample_reads : list (string * string * Z) :=
  [ (sample_line, "2024-01-01T12:00:01", 0);
    (sample_noise, "2024-01-01T12:00:02", 1);
    ("", "2024-01-01T12:00:03", 2);
    (sample_line, "2024-01-01T12:00:04", 3) ].


(** The detector after [demo_feed]. *)
Definition demo_final : DeauthDetector :=
  match run demo_feed demo_detector with
  | Ok (_, self) => self
  | Raise _ => demo_detector
  end.

(** One pair of addresses seen at 0, 5, 24 and 25: with a window of 20 the
    reading 0 is pruned at 24 and the reading 5 at 25. *)
Definition pruning_feed : list (DeauthEvent.t * Z) :=
  [ (demo_event "aa:bb:cc:dd:ee:01" "11:22:33:44:55:66" "deauth", 0);
    (demo_event "aa:bb:cc:dd:ee:01" "11:22:33:44:55:66" "deauth", 5);
    (demo_event "aa:bb:cc:dd:ee:01" "11:22:33:44:55:66" "deauth", 24);
    (demo_event "aa:bb:cc:dd:ee:01" "11:22:33:44:55:66" "deauth", 25) ].

(** One pair of addresses seen at clock readings 0, 1, 100 and then 2: the
    clock goes back before the last call. *)
Definition clock_returns_feed : list (DeauthEvent.t * Z) :=
  [ (demo_event "aa:bb:cc:dd:ee:01" "11:22:33:44:55:66" "deauth", 0);
    (demo_event "aa:bb:cc:dd:ee:01" "11:22:33:44:55:66" "deauth", 1);
    (demo_event "aa:bb:cc:dd:ee:01" "11:22:33:44:55:66" "deauth", 100);
    (demo_event "aa:bb:cc:dd:ee:01" "11:22:33:44:55:66" "deauth", 2) ].


(** A detector whose two counters hold entries of equal count. *)
Definition counted_detector : DeauthDetector :=
  set_target_counts
    [("11:22:33:44:55:66", 1); ("ff:ff:ff:ff:ff:ff", 2); ("77:88:99:aa:bb:cc", 1)]
    (set_source_counts
       [("aa:bb:cc:dd:ee:03", 1); ("aa:bb:cc:dd:ee:01", 2); ("aa:bb:cc:dd:ee:02", 1)]
       (init "wlan0" 10 10)).

(** * Notions used in the statements *)

(** The sequence stored at a key, empty for a key that is absent. *)
Definition window_seq (self : DeauthDetector) (key : string) : list Z :=
  default [] (deauth_counts self !! key).

(** The sequence left at the event's key by the prune step. *)
Definition pruned (self : DeauthDetector) (event : DeauthEvent.t) (current_time : Z) : list Z :=
  filter (fun t => current_time - t < window self)
    (window_seq self (key_of event) ++ [current_time]).

(** What one call does to each attribute, in terms of the object before. *)
Record processed (event : DeauthEvent.t) (current_time : Z)
    (self self' : DeauthDetector) : Prop := {
  pr_interface : interface self' = interface self;
  pr_threshold : threshold self' = threshold self;
  pr_window : window self' = window self;
  pr_running : running self' = running self;
  pr_events : events self' = events self ++ [event];
  pr_source_counts :
    source_counts self' =
    Counter.setitem (DeauthEvent.source_mac event)
      (Counter.count (DeauthEvent.source_mac event) (source_counts self) + 1)
      (source_counts self);
  pr_target_counts :
    target_counts self' =
    Counter.setitem (DeauthEvent.dest_mac event)
      (Counter.count (DeauthEvent.dest_mac event) (target_counts self) + 1)
      (target_counts self);
  pr_deauth_counts :
    deauth_counts self' =
    <[key_of event := pruned self event current_time]> (deauth_counts self);
  pr_alerts :
    alerts self' =
    if decide (threshold self <= len (pruned self event current_time))
    then alerts self ++ [new_alert event (len (pruned self event current_time))]
    else alerts self;
  pr_stdout :
    stdout self' =
    stdout self ++ PrintedEvent event ::
      (if decide (threshold self <= len (pruned self event current_time))
       then [PrintedAlert (new_alert event (len (pruned self event current_time)))
               (window self)]
       else [])
}.

(** The clock readings recorded at a key over a feed, pruned or not: those
    of the events whose key it is, in the order of the calls. *)
Definition history (feed : list (DeauthEvent.t * Z)) (key : string) : list Z :=
  (filter (fun p => key_of p.1 = key) feed).*2.

(** The two classes of alert, told apart by the target address. *)
Definition classified (a : Alert.t) : Prop :=
  (Alert.target_mac a = broadcast
   /\ Alert.severity a = "critical"
   /\ Alert.attack_type a = "Broadcast Deauth Attack")
  \/ (Alert.target_mac a <> broadcast
      /\ Alert.severity a = "high"
      /\ Alert.attack_type a = "Targeted Deauth Attack").

(** The alerts written to the console, in order. *)
Fixpoint printed_alerts (out : list Output) : list Alert.t :=
  match out with
  | [] => []
  | PrintedAlert a _ :: out' => a :: printed_alerts out'
  | PrintedEvent _ :: out' => printed_alerts out'
  end.

(** The counters agree with the logs. *)
Definition consistent (self : DeauthDetector) : Prop :=
  Counter.total (source_counts self) = len (events self)
  /\ Counter.total (target_counts self) = len (events self)
  /\ alerts self = printed_alerts (stdout self).

(** Descending order of count. *)
Definition desc (p q : string * Z) : Prop := q.2 <= p.2.

(** [l] is the first [n] entries of the counter [c] put in descending order
    of count, entries of equal count staying in the order they have in [c]
    (the order in which their keys were first counted): [l] followed by some
    [rest] is a rearrangement of [c] that is in descending order and holds
    the entries of each count in the order [c] has them. *)
Definition top_n (n : nat) (c l : list (string * Z)) : Prop :=
  exists rest,
    l ++ rest ≡ₚ c
    /\ length l = min n (length c)
    /\ StronglySorted desc (l ++ rest)
    /\ forall v, filter (fun p => p.2 = v) (l ++ rest) = filter (fun p => p.2 = v) c.

(** The keys of a sequence in the order of their first occurrence. *)
Definition first_seen (keys : list string) : list string :=
  foldl (fun acc k => if decide (k ∈ acc) then acc else acc ++ [k]) [] keys.

(** The alerts a burst on one key adds to the log when every reading stays
    in the window: the event that brings the count to [k] alerts when
    [threshold <= k], with that count. *)
Fixpoint burst_alerts (threshold k : Z) (feed : list (DeauthEvent.t * Z)) : list Alert.t :=
  match feed with
  | [] => []
  | (event, _) :: feed' =>
      (if decide (threshold <= k) then [new_alert event k] else [])
        ++ burst_alerts threshold (k + 1) feed'
  end.

(** * Further notions *)

(** The key of the window store an alert was raised at, formatted from the
    alert's addresses as [key_of] formats it from the event's. *)
Definition alert_key (a : Alert.t) : string :=
  Alert.source_mac a +:+ "->" +:+ Alert.target_mac a.

(** The part of a feed that is at one key. *)
Definition at_key (key : string) (feed : list (DeauthEvent.t * Z)) : list (DeauthEvent.t * Z) :=
  filter (fun p => key_of p.1 = key) feed.

(** What an alert copies from its event: timestamp, source, destination
    and BSSID. *)
Definition event_fields (e : DeauthEvent.t) : string * string * string * string :=
  (DeauthEvent.timestamp e, DeauthEvent.source_mac e, DeauthEvent.dest_mac e,
   DeauthEvent.bssid e).

Definition alert_fields (a : Alert.t) : string * string * string * string :=
  (Alert.timestamp a, Alert.source_mac a, Alert.target_mac a, Alert.bssid a).

(** The last reading of a sequence; 0 for the empty sequence. *)
Definition latest (l : list Z) : Z := default 0 (last l).

(** The counter built by counting the keys of a sequence one by one, as
    [c[k] += 1] does from an empty [Counter]. *)
Definition tally (keys : list string) : Counter.t :=
  foldl (fun c k => Counter.setitem k (Counter.count k c + 1) c) Counter.empty keys.

(** The sources and the destinations of the events of a feed. *)
Definition sources (feed : list (DeauthEvent.t * Z)) : list string :=
  DeauthEvent.source_mac <$> feed.*1.

Definition targets (feed : list (DeauthEvent.t * Z)) : list string :=
  DeauthEvent.dest_mac <$> feed.*1.

(** The addresses [parse_frame] finds in a line, in order. *)
Definition macs_of (line : string) : list string :=
  lower <$> filter (fun part => mac_shaped part) (split line).

(** An event as [parse_frame] builds them: three lower-case words of 17
    characters with five colons, one of the two frame types, reason code 0
    and no channel. *)
Definition well_formed (e : DeauthEvent.t) : Prop :=
  mac_shaped (DeauthEvent.source_mac e)
  /\ mac_shaped (DeauthEvent.dest_mac e)
  /\ mac_shaped (DeauthEvent.bssid e)
  /\ lower (DeauthEvent.source_mac e) = DeauthEvent.source_mac e
  /\ lower (DeauthEvent.dest_mac e) = DeauthEvent.dest_mac e
  /\ lower (DeauthEvent.bssid e) = DeauthEvent.bssid e
  /\ (DeauthEvent.frame_type e = "deauth" \/ DeauthEvent.frame_type e = "disassoc")
  /\ DeauthEvent.reason_code e = 0
  /\ DeauthEvent.channel e = None.

(** The alerts of a feed when nothing is pruned: each event is counted
    with the earlier events of its key, [seen] being the events before the
    feed, and alerts when that count reaches the threshold. *)
Fixpoint counted_alerts (threshold : Z) (seen feed : list (DeauthEvent.t * Z)) : list Alert.t :=
  match feed with
  | [] => []
  | (event, current_time) :: feed' =>
      (if decide (threshold <= len (at_key (key_of event) seen) + 1)
       then [new_alert event (len (at_key (key_of event) seen) + 1)] else [])
        ++ counted_alerts threshold (seen ++ [(event, current_time)]) feed'
  end.

(** * Properties *)

(** ** The monad *)

Lemma bind_ok {A B : Type} (c : M A) (f : A -> M B) self a self' :
  c self = Ok (a, self') -> (c ≫= f) self = f a self'.
Proof. intros H. unfold mbind, M_bind. by rewrite H. Qed.

Lemma bind_attr {A B : Type} (g : DeauthDetector -> A) (f : A -> M B) self :
  (attr g ≫= f) self = f (g self) self.
Proof. reflexivity. Qed.

Lemma bind_update {B : Type} (g : DeauthDetector -> DeauthDetector) (f : unit -> M B) self :
  (update g ≫= f) self = f tt (g self).
Proof. reflexivity. Qed.

(** ** The key of the window store *)

Lemma append_inj_length s1 s2 t1 t2 :
  String.length s1 = String.length s2 ->
  s1 +:+ t1 = s2 +:+ t2 -> s1 = s2 /\ t1 = t2.
Proof.
  revert s2. induction s1 as [|a s1 IH]; intros [|b s2] Hlen H; simpl in *; try done.
  injection H as -> H. injection Hlen as Hlen.
  destruct (IH _ Hlen H) as [-> ->]. done.
Qed.

(** Events whose sources have the same length, as the 17-character
    addresses have, share a key only when they share source and
    destination. *)
Lemma key_of_inj event1 event2 :
  String.length (DeauthEvent.source_mac event1)
  = String.length (DeauthEvent.source_mac event2) ->
  key_of event1 = key_of event2 ->
  DeauthEvent.source_mac event1 = DeauthEvent.source_mac event2
  /\ DeauthEvent.dest_mac event1 = DeauthEvent.dest_mac event2.
Proof.
  unfold key_of. intros Hlen H.
  apply append_inj_length in H as [Hsrc H]; [|done].
  apply (append_inj_length "->" "->") in H as [_ Hdst]; done.
Qed.

(** For arbitrary strings the formatted key can be shared by two pairs. *)
Lemma key_of_shared :
  key_of (demo_event "a->b" "c" "deauth") = key_of (demo_event "a" "b->c" "deauth").
Proof. reflexivity. Qed.

(** ** Counters *)

Lemma Counter_getitem_ok k c : Counter.getitem k c = Ok (Counter.count k c, c).
Proof.
  unfold Counter.getitem, getitem, Counter.count, Counter.missing.
  by destruct (OrderedDict.get k c).
Qed.

Lemma Counter_incr_ok k c :
  Counter.incr k c = Ok (Counter.setitem k (Counter.count k c + 1) c).
Proof. unfold Counter.incr. by rewrite Counter_getitem_ok. Qed.

Lemma OrderedDict_get_set_eq {V : Type} k (v : V) d :
  OrderedDict.get k (OrderedDict.set k v d) = Some v.
Proof.
  induction d as [|[k' v'] d IH]; simpl.
  - by rewrite decide_True.
  - destruct (decide (k = k')) as [->|Hne]; simpl.
    + by rewrite decide_True.
    + by rewrite decide_False.
Qed.

Lemma OrderedDict_get_set_ne {V : Type} k k0 (v : V) d :
  k0 <> k -> OrderedDict.get k0 (OrderedDict.set k v d) = OrderedDict.get k0 d.
Proof.
  intros Hne. induction d as [|[k' v'] d IH]; simpl.
  - by rewrite decide_False.
  - destruct (decide (k = k')) as [->|Hne']; simpl.
    + by rewrite !decide_False.
    + destruct (decide (k0 = k')); [done | apply IH].
Qed.

Lemma Counter_count_setitem_eq k v c : Counter.count k (Counter.setitem k v c) = v.
Proof. unfold Counter.count, Counter.setitem. by rewrite OrderedDict_get_set_eq. Qed.

Lemma Counter_count_setitem_ne k k0 v c :
  k0 <> k -> Counter.count k0 (Counter.setitem k v c) = Counter.count k0 c.
Proof. intros. unfold Counter.count, Counter.setitem. by rewrite OrderedDict_get_set_ne. Qed.

(** Adding one to a key's count adds one to the sum of all counts. *)
Lemma Counter_total_incr k c :
  Counter.total (Counter.setitem k (Counter.count k c + 1) c) = Counter.total c + 1.
Proof.
  unfold Counter.total, Counter.setitem, Counter.count.
  induction c as [|[k' v'] c IH]; csimpl.
  - lia.
  - destruct (decide (k = k')) as [->|Hne]; csimpl; lia.
Qed.

(** ** The window store *)

Lemma DefaultDict_getitem_ok key d :
  DefaultDict.getitem key d = Ok (default [] (d !! key), <[key := default [] (d !! key)]> d).
Proof.
  unfold DefaultDict.getitem, getitem, DefaultDict.missing.
  destruct (d !! key) as [l|] eqn:E; simpl; [|done].
  by rewrite insert_id.
Qed.

Lemma deauth_counts_getitem_ok key self :
  deauth_counts_getitem key self =
  Ok (window_seq self key,
      set_deauth_counts (<[key := window_seq self key]> (deauth_counts self)) self).
Proof. unfold deauth_counts_getitem. by rewrite DefaultDict_getitem_ok. Qed.

Lemma deauth_counts_getitem_present key l self :
  deauth_counts self !! key = Some l ->
  deauth_counts_getitem key self = Ok (l, self).
Proof.
  intros H. rewrite deauth_counts_getitem_ok. unfold window_seq. rewrite H. simpl.
  rewrite insert_id by done. by destruct self.
Qed.

(** ** One call of [process_event] *)

Lemma source_counts_incr_ok k self :
  source_counts_incr k self =
  Ok (tt, set_source_counts
            (Counter.setitem k (Counter.count k (source_counts self) + 1) (source_counts self))
            self).
Proof. unfold source_counts_incr. by rewrite Counter_incr_ok. Qed.

Lemma target_counts_incr_ok k self :
  target_counts_incr k self =
  Ok (tt, set_target_counts
            (Counter.setitem k (Counter.count k (target_counts self) + 1) (target_counts self))
            self).
Proof. unfold target_counts_incr. by rewrite Counter_incr_ok. Qed.

Lemma bind_setitem {B : Type} key l (f : unit -> M B) self :
  (deauth_counts_setitem key l ≫= f) self =
  f tt (set_deauth_counts (<[key := l]> (deauth_counts self)) self).
Proof. reflexivity. Qed.

Lemma bind_print {B : Type} o (f : unit -> M B) self :
  (print o ≫= f) self = f tt (set_stdout (stdout self ++ [o]) self).
Proof. reflexivity. Qed.

Lemma generate_alert_ok event count self :
  generate_alert event count self =
  Ok (tt, set_stdout (stdout self ++ [PrintedAlert (new_alert event count) (window self)])
            (set_alerts (alerts self ++ [new_alert event count]) self)).
Proof. reflexivity. Qed.

Ltac flat :=
  cbv beta;
  unfold set_events, set_alerts, set_deauth_counts, set_source_counts,
    set_target_counts, set_stdout;
  cbn [interface threshold window events alerts running deauth_counts
       source_counts target_counts stdout].

Lemma process_event_ok event current_time self :
  exists self',
    process_event event current_time self = Ok (tt, self')
    /\ processed event current_time self self'.
Proof.
  unfold process_event.
  set (l := pruned self event current_time).
  assert (Hl : l = pruned self event current_time) by done.
  unfold pruned, window_seq in l.
  destruct self as [i th w ev al r dc sc tc out]. cbn in l.
  rewrite bind_update. flat.
  erewrite bind_ok by apply source_counts_incr_ok. flat.
  erewrite bind_ok by apply target_counts_incr_ok. flat.
  erewrite bind_ok by apply deauth_counts_getitem_ok.
  unfold window_seq. flat.
  rewrite bind_setitem. flat. rewrite insert_insert_eq.
  erewrite bind_ok by (apply deauth_counts_getitem_present, lookup_insert_eq). flat.
  rewrite bind_attr, bind_setitem. flat. rewrite insert_insert_eq.
  unfold print_event. rewrite bind_print. flat.
  erewrite bind_ok by (apply deauth_counts_getitem_present, lookup_insert_eq). flat.
  rewrite bind_attr. flat. fold l.
  destruct (decide (th <= len l)) as [Hge|Hlt].
  - erewrite bind_ok by (apply deauth_counts_getitem_present, lookup_insert_eq). flat.
    rewrite generate_alert_ok. flat.
    eexists. split; [reflexivity|].
    split; cbn [interface threshold window events alerts running deauth_counts
       source_counts target_counts stdout]; rewrite <- ?Hl; try done.
    + by rewrite decide_True.
    + rewrite decide_True by done. by rewrite <- app_assoc.
  - eexists. split; [reflexivity|].
    split; cbn [interface threshold window events alerts running deauth_counts
       source_counts target_counts stdout]; rewrite <- ?Hl; try done.
    + by rewrite decide_False.
    + by rewrite decide_False.
Qed.

(** ** Feeds *)

Lemma run_cons event current_time feed self self' :
  process_event event current_time self = Ok (tt, self') ->
  run ((event, current_time) :: feed) self = run feed self'.
Proof. intros H. simpl. by erewrite bind_ok by exact H. Qed.

Lemma run_snoc feed event current_time self self' :
  run feed self = Ok (tt, self') ->
  run (feed ++ [(event, current_time)]) self = process_event event current_time self'.
Proof.
  revert self. induction feed as [|[e t] feed IH]; intros self H.
  - injection H as <-. simpl.
    destruct (process_event_ok event current_time self) as (s & Hs & _).
    by erewrite bind_ok by exact Hs.
  - destruct (process_event_ok e t self) as (s & Hs & _).
    rewrite (run_cons _ _ _ _ _ Hs) in H.
    change (((e, t) :: feed) ++ [(event, current_time)])
      with ((e, t) :: (feed ++ [(event, current_time)])).
    rewrite (run_cons _ _ _ _ _ Hs). by apply IH.
Qed.

Lemma run_ok feed self : exists self', run feed self = Ok (tt, self').
Proof.
  revert self. induction feed as [|[e t] feed IH]; intros self.
  - by exists self.
  - destruct (process_event_ok e t self) as (s & Hs & _).
    destruct (IH s) as (s' & Hs'). exists s'.
    by rewrite (run_cons _ _ _ _ _ Hs).
Qed.

(** A property of the object that every call keeps holds after any feed. *)
Lemma run_invariant (P : DeauthDetector -> Prop) feed self self' :
  (forall event current_time s s',
      P s -> process_event event current_time s = Ok (tt, s') -> P s') ->
  P self -> run feed self = Ok (tt, self') -> P self'.
Proof.
  intros Hstep. revert self. induction feed as [|[e t] feed IH]; intros self HP H.
  - by injection H as <-.
  - destruct (process_event_ok e t self) as (s & Hs & _).
    rewrite (run_cons _ _ _ _ _ Hs) in H. eapply IH; [|exact H]. eauto.
Qed.

Lemma window_seq_processed event current_time self self' :
  processed event current_time self self' ->
  window_seq self' (key_of event) = pruned self event current_time.
Proof.
  intros H. unfold window_seq. rewrite (pr_deauth_counts _ _ _ _ H).
  by rewrite lookup_insert_eq.
Qed.

Lemma window_seq_processed_ne event current_time self self' key :
  processed event current_time self self' ->
  key <> key_of event ->
  window_seq self' key = window_seq self key.
Proof.
  intros H Hne. unfold window_seq. rewrite (pr_deauth_counts _ _ _ _ H).
  by rewrite lookup_insert_ne.
Qed.

Lemma app_singleton_ne {A : Type} (l : list A) (x : A) : l ++ [x] <> l.
Proof.
  intros H. apply (f_equal length) in H. rewrite length_app in H. simpl in H. lia.
Qed.

(** ** Threshold and re-triggering *)

Lemma filter_all {A : Type} (P : A -> Prop) `{!forall x, Decision (P x)} (l : list A) :
  Forall P l -> filter P l = l.
Proof.
  induction 1 as [|x l Hx _ IH]; [done|].
  rewrite filter_cons_True by done. by rewrite IH.
Qed.

Lemma elem_of_snoc_cons {A : Type} (l l' : list A) (x y : A) :
  x ∈ l ++ [y] -> x ∈ l ++ y :: l'.
Proof. rewrite !elem_of_app, list_elem_of_singleton, elem_of_cons. tauto. Qed.

Lemma elem_of_snoc_app_cons {A : Type} (l l' : list A) (x y : A) :
  x ∈ (l ++ [y]) ++ l' -> x ∈ l ++ y :: l'.
Proof. rewrite <- app_assoc. done. Qed.

Lemma len_app_singleton {A : Type} (l : list A) (x : A) : len (l ++ [x]) = len l + 1.
Proof. unfold len. rewrite length_app. simpl. lia. Qed.

(** A burst on one key whose readings all stay in the window of every later
    one: nothing is pruned, and the count grows by one with each event. *)
Lemma burst_run key feed self :
  Forall (fun p => key_of p.1 = key) feed ->
  (forall t t', t ∈ window_seq self key ++ feed.*2 -> t' ∈ feed.*2 -> t' - t < window self) ->
  exists self',
    run feed self = Ok (tt, self')
    /\ window_seq self' key = window_seq self key ++ feed.*2
    /\ alerts self' =
       alerts self ++ burst_alerts (threshold self) (len (window_seq self key) + 1) feed.
Proof.
  revert self. induction feed as [|[e t] feed IH]; intros self Hkey Hin.
  - exists self. simpl. by rewrite !app_nil_r.
  - apply Forall_cons in Hkey as [Hk Hkey]. simpl in Hk.
    destruct (process_event_ok e t self) as (s & Hs & Hp).
    assert (Hpr : pruned self e t = window_seq self key ++ [t]).
    { unfold pruned. rewrite Hk. apply filter_all, Forall_forall. intros x Hx.
      apply Hin; csimpl; [by apply elem_of_snoc_cons | apply elem_of_cons; by left]. }
    assert (Hseq : window_seq s key = window_seq self key ++ [t]).
    { rewrite <- Hk, (window_seq_processed _ _ _ _ Hp), Hk. exact Hpr. }
    destruct (IH s Hkey) as (s' & Hs' & Hseq' & Hal).
    { intros x x' Hx Hx'. rewrite (pr_window _ _ _ _ Hp).
      rewrite Hseq in Hx.
      apply Hin; csimpl; [by apply elem_of_snoc_app_cons | apply elem_of_cons; by right]. }
    exists s'. split; [by rewrite (run_cons _ _ _ _ _ Hs)|]. split.
    + rewrite Hseq', Hseq. csimpl. by rewrite <- app_assoc.
    + rewrite Hal, (pr_alerts _ _ _ _ Hp), (pr_threshold _ _ _ _ Hp), Hseq, Hpr.
      rewrite len_app_singleton. simpl.
      destruct (decide (threshold self <= len (window_seq self key) + 1)); [|done].
      by rewrite <- app_assoc.
Qed.

(** C1. An alert is emitted for an event exactly when the count left at its
    key by the prune step reaches the threshold: the alert log then grows by
    the alert built from the event and that count, and otherwise it is
    unchanged; nothing suppresses a later alert.  In a burst on one key whose
    clock readings all lie within one window of each other, starting from a
    new detector, the event that brings the count to [k] alerts exactly when
    [threshold <= k]: the one completing the threshold does, the ones before
    it do not, and each one after it does again. *)
Theorem alert_iff_threshold :
  (forall event current_time self,
      exists self',
        process_event event current_time self = Ok (tt, self')
        /\ let n := len (window_seq self' (key_of event)) in
           n = len (pruned self event current_time)
           /\ (threshold self <= n <-> alerts self' = alerts self ++ [new_alert event n])
           /\ (n < threshold self <-> alerts self' = alerts self))
  /\ (forall key feed interface threshold window,
         Forall (fun p => key_of p.1 = key) feed ->
         Forall (fun t => Forall (fun t' => t' - t < window) feed.*2) feed.*2 ->
         exists self',
           run feed (init interface threshold window) = Ok (tt, self')
           /\ window_seq self' key = feed.*2
           /\ alerts self' = burst_alerts threshold 1 feed).
Proof.
  split.
  - intros event current_time self.
    destruct (process_event_ok event current_time self) as (s & Hs & Hp).
    exists s. split; [done|].
    rewrite (window_seq_processed _ _ _ _ Hp). cbv zeta. split; [done|].
    rewrite (pr_alerts _ _ _ _ Hp).
    destruct (decide (threshold self <= len (pruned self event current_time))) as [Hge|Hlt].
    + split; split; try done; try lia.
      intros H. by apply app_singleton_ne in H.
    + split; split; try done; try lia.
      intros H. symmetry in H. by apply app_singleton_ne in H.
  - intros key feed i th w Hkey Hin.
    destruct (burst_run key feed (init i th w) Hkey) as (s & Hs & Hseq & Hal).
    { intros t t' Ht Ht'. simpl.
      rewrite Forall_forall in Hin. specialize (Hin t). rewrite Forall_forall in Hin.
      apply Hin; [|done]. unfold window_seq in Ht. simpl in Ht.
      rewrite lookup_empty in Ht. by simpl in Ht. }
    exists s. split; [done|]. split.
    + rewrite Hseq. unfold window_seq. simpl. by rewrite lookup_empty.
    + rewrite Hal. simpl. unfold window_seq. simpl. by rewrite lookup_empty.
Qed.

(** ** Pruning and the window count *)

Lemma history_snoc_eq feed event current_time :
  history (feed ++ [(event, current_time)]) (key_of event) =
  history feed (key_of event) ++ [current_time].
Proof.
  unfold history. rewrite filter_app, fmap_app.
  by rewrite filter_singleton_True by done.
Qed.

Lemma history_snoc_ne feed event current_time key :
  key <> key_of event ->
  history (feed ++ [(event, current_time)]) key = history feed key.
Proof.
  intros Hne. unfold history. rewrite filter_app, fmap_app.
  rewrite filter_singleton_False by (simpl; congruence). simpl. apply app_nil_r.
Qed.

(** While the clock does not go back, the stored sequence and the full
    history of a key hold the same readings within the window of any reading
    at or after the last call: what was pruned stays out of every later
    window. *)
Lemma stored_agrees_with_history feed interface threshold w self :
  StronglySorted Z.le feed.*2 ->
  run feed (init interface threshold w) = Ok (tt, self) ->
  window self = w
  /\ forall key T,
       Forall (fun t => t <= T) feed.*2 ->
       filter (fun t => T - t < w) (window_seq self key) =
       filter (fun t => T - t < w) (history feed key).
Proof.
  revert self. induction feed as [|[e t] feed IH] using rev_ind; intros self Hsorted Hrun.
  - injection Hrun as <-. split; [done|]. intros key T _.
    unfold window_seq, history. simpl. by rewrite lookup_empty.
  - rewrite fmap_app in Hsorted. apply StronglySorted_app in Hsorted as (Hle & Hs & _).
    destruct (run_ok feed (init interface threshold w)) as (s0 & Hs0).
    rewrite (run_snoc _ _ _ _ _ Hs0) in Hrun.
    destruct (process_event_ok e t s0) as (s' & Hs' & Hp).
    rewrite Hs' in Hrun. injection Hrun as <-.
    destruct (IH s0 Hs Hs0) as (Hw & Hagree).
    split; [by rewrite (pr_window _ _ _ _ Hp)|].
    intros key T HT. rewrite fmap_app in HT. apply Forall_app in HT as [HT Ht].
    csimpl in Ht. rewrite Forall_singleton in Ht.
    destruct (decide (key = key_of e)) as [->|Hne].
    + rewrite (window_seq_processed _ _ _ _ Hp), history_snoc_eq.
      unfold pruned. rewrite Hw.
      rewrite list_filter_filter_l by (intros x; lia).
      by rewrite !filter_app, Hagree.
    + rewrite (window_seq_processed_ne _ _ _ _ _ Hp Hne), history_snoc_ne by done.
      by apply Hagree.
Qed.

(** When the clock goes back, a reading pruned earlier can be within the
    window of a later, smaller reading: it is not counted again. *)
Lemma pruned_reading_stays_out :
  exists self,
    run [(odd_event "deauth", 0); (odd_event "deauth", 100); (odd_event "deauth", 5)]
      (init "wlan0" 10 10) = Ok (tt, self)
    /\ window_seq self (key_of (odd_event "deauth")) = [100; 5]
    /\ filter (fun t => 5 - t < 10)
         (history [(odd_event "deauth", 0); (odd_event "deauth", 100);
                   (odd_event "deauth", 5)] (key_of (odd_event "deauth")))
       = [0; 100; 5].
Proof.
  destruct (run_ok [(odd_event "deauth", 0); (odd_event "deauth", 100);
                    (odd_event "deauth", 5)] (init "wlan0" 10 10)) as (s & Hs).
  exists s. split; [done|].
  vm_compute in Hs. injection Hs as <-. split; reflexivity.
Qed.

(** With window 10 and one key seen at 0, 1, 100 and then 2, the call at 2
    finds [100] stored, the readings 0 and 1 having been pruned at 100: the
    count is 2, while all four recorded readings are within the window of
    2. *)
Lemma count_misses_readings_when_clock_goes_back :
  exists self,
    run clock_returns_feed (init "wlan0" 3 10) = Ok (tt, self)
    /\ window_seq self "aa:bb:cc:dd:ee:01->11:22:33:44:55:66" = [100; 2]
    /\ len (window_seq self "aa:bb:cc:dd:ee:01->11:22:33:44:55:66") = 2
    /\ filter (fun t => 2 - t < 10)
         (history clock_returns_feed "aa:bb:cc:dd:ee:01->11:22:33:44:55:66")
       = [0; 1; 100; 2]
    /\ len (filter (fun t => 2 - t < 10)
              (history clock_returns_feed "aa:bb:cc:dd:ee:01->11:22:33:44:55:66")) = 4
    /\ alerts self = [].
Proof.
  destruct (run_ok clock_returns_feed (init "wlan0" 3 10)) as (s & Hs).
  exists s. split; [done|].
  vm_compute in Hs. injection Hs as <-. repeat split; reflexivity.
Qed.

(** With window 20 and one key seen at 0, 5, 24 and 25, the readings 0 and
    5 have been pruned when the call at 26 comes, and it counts three of
    the five readings recorded. *)
Lemma pruning_feed_prunes :
  exists self self',
    run pruning_feed demo_detector = Ok (tt, self)
    /\ window_seq self "aa:bb:cc:dd:ee:01->11:22:33:44:55:66" = [24; 25]
    /\ process_event (demo_event "aa:bb:cc:dd:ee:01" "11:22:33:44:55:66" "deauth") 26 self
       = Ok (tt, self')
    /\ window_seq self' "aa:bb:cc:dd:ee:01->11:22:33:44:55:66" = [24; 25; 26]
    /\ history (pruning_feed
                  ++ [(demo_event "aa:bb:cc:dd:ee:01" "11:22:33:44:55:66" "deauth", 26)])
         "aa:bb:cc:dd:ee:01->11:22:33:44:55:66" = [0; 5; 24; 25; 26].
Proof.
  destruct (run_ok pruning_feed demo_detector) as (s & Hs).
  destruct (process_event_ok
              (demo_event "aa:bb:cc:dd:ee:01" "11:22:33:44:55:66" "deauth") 26 s)
    as (s' & Hs' & _).
  exists s, s'. split; [exact Hs|].
  vm_compute in Hs. injection Hs as <-.
  split; [reflexivity|]. split; [exact Hs'|].
  vm_compute in Hs'. injection Hs' as <-. split; reflexivity.
Qed.

(** C2 (amended). After the prune step the sequence at the event's key is
    the stored sequence with the new reading, filtered by
    [current_time - t < window]: the count is the number of those readings
    that are in the window, and no reading with
    [current_time - t >= window] is in it.  Over a feed to a new detector
    whose clock readings do not go back, that count is the number of all
    the readings ever recorded at the key that are in the window. *)
Theorem count_is_in_window_readings :
  (forall event current_time self,
      exists self',
        process_event event current_time self = Ok (tt, self')
        /\ window_seq self' (key_of event) =
           filter (fun t => current_time - t < window self)
             (window_seq self (key_of event) ++ [current_time])
        /\ Forall (fun t => ~ window self <= current_time - t)
             (window_seq self' (key_of event)))
  /\ (forall feed event current_time interface threshold window,
         StronglySorted Z.le (feed.*2 ++ [current_time]) ->
         exists self self',
           run feed (init interface threshold window) = Ok (tt, self)
           /\ process_event event current_time self = Ok (tt, self')
           /\ len (window_seq self' (key_of event)) =
              len (filter (fun t => current_time - t < window)
                     (history (feed ++ [(event, current_time)]) (key_of event)))).
Proof.
  split.
  - intros event current_time self.
    destruct (process_event_ok event current_time self) as (s & Hs & Hp).
    exists s. split; [done|]. rewrite (window_seq_processed _ _ _ _ Hp).
    split; [done|]. apply Forall_forall. intros t Ht.
    apply list_elem_of_filter in Ht as [Ht _]. lia.
  - intros feed event current_time i th w Hsorted.
    destruct (run_ok feed (init i th w)) as (s & Hs).
    destruct (process_event_ok event current_time s) as (s' & Hs' & Hp).
    exists s, s'. split; [done|]. split; [done|].
    assert (Hrun : run (feed ++ [(event, current_time)]) (init i th w) = Ok (tt, s'))
      by by rewrite (run_snoc _ _ _ _ _ Hs).
    assert (Hsorted' : StronglySorted Z.le (feed ++ [(event, current_time)]).*2)
      by by rewrite fmap_app.
    destruct (stored_agrees_with_history _ _ _ _ _ Hsorted' Hrun) as (Hw & Hagree).
    rewrite <- Hagree.
    + f_equal. symmetry. apply filter_all.
      rewrite (window_seq_processed _ _ _ _ Hp). apply Forall_forall. intros t Ht.
      apply list_elem_of_filter in Ht as [Ht _].
      by rewrite <- Hw, (pr_window _ _ _ _ Hp).
    + rewrite fmap_app. apply StronglySorted_app in Hsorted as (Hle & _ & _).
      apply Forall_app. split; [|csimpl; by apply Forall_singleton].
      apply Forall_forall. intros t Ht. apply Hle; [done|]. by apply list_elem_of_singleton.
Qed.

(** ** Classification and frame count *)

Lemma process_event_processed event current_time self self' :
  process_event event current_time self = Ok (tt, self') ->
  processed event current_time self self'.
Proof.
  intros H. destruct (process_event_ok event current_time self) as (s & Hs & Hp).
  rewrite Hs in H. by injection H as <-.
Qed.

Lemma new_alert_classified event count : classified (new_alert event count).
Proof.
  unfold classified, new_alert.
  destruct (decide (DeauthEvent.dest_mac event = broadcast)); [left|right]; done.
Qed.

Lemma new_alert_frame_count event count : Alert.frame_count (new_alert event count) = count.
Proof. unfold new_alert. by destruct (decide _). Qed.

(** The log only grows, by at most the alert of the event. *)
Lemma alerts_processed event current_time self self' :
  processed event current_time self self' ->
  alerts self' = alerts self
  \/ (threshold self <= len (window_seq self' (key_of event))
      /\ alerts self' =
         alerts self ++ [new_alert event (len (window_seq self' (key_of event)))]).
Proof.
  intros Hp. rewrite (window_seq_processed _ _ _ _ Hp), (pr_alerts _ _ _ _ Hp).
  destruct (decide _); [by right | by left].
Qed.

(** C3. The alert built for an event targets the event's destination; it is
    critical and a Broadcast Deauth Attack when that is ff:ff:ff:ff:ff:ff,
    and high and a Targeted Deauth Attack otherwise, whatever the count, the
    clock and the detector.  An alert a call adds to the log is that alert,
    so after any feed to a new detector every alert of the log is of one of
    the two classes. *)
Theorem alert_classification :
  (forall event count,
      Alert.target_mac (new_alert event count) = DeauthEvent.dest_mac event
      /\ (DeauthEvent.dest_mac event = "ff:ff:ff:ff:ff:ff" ->
          Alert.severity (new_alert event count) = "critical"
          /\ Alert.attack_type (new_alert event count) = "Broadcast Deauth Attack")
      /\ (DeauthEvent.dest_mac event <> "ff:ff:ff:ff:ff:ff" ->
          Alert.severity (new_alert event count) = "high"
          /\ Alert.attack_type (new_alert event count) = "Targeted Deauth Attack"))
  /\ (forall event current_time self,
         exists self',
           process_event event current_time self = Ok (tt, self')
           /\ (alerts self' = alerts self
               \/ exists count, alerts self' = alerts self ++ [new_alert event count]))
  /\ (forall feed interface threshold window,
         exists self',
           run feed (init interface threshold window) = Ok (tt, self')
           /\ Forall classified (alerts self')).
Proof.
  split; [|split].
  - intros event count. unfold new_alert.
    destruct (decide (DeauthEvent.dest_mac event = broadcast)) as [Heq|Hne];
      unfold broadcast in *; simpl; split; try done; split; intros H; try done.
  - intros event current_time self.
    destruct (process_event_ok event current_time self) as (s & Hs & Hp).
    exists s. split; [done|].
    destruct (alerts_processed _ _ _ _ Hp) as [H|[_ H]]; [by left|right; eauto].
  - intros feed i th w. destruct (run_ok feed (init i th w)) as (s & Hs).
    exists s. split; [done|].
    apply (run_invariant (fun s => Forall classified (alerts s)) feed _ _) in Hs;
      [done| |by constructor].
    intros e t s1 s2 HP Hstep. apply process_event_processed in Hstep.
    destruct (alerts_processed _ _ _ _ Hstep) as [->|[_ ->]]; [done|].
    apply Forall_app. split; [done|]. apply Forall_singleton, new_alert_classified.
Qed.

(** C4. The alert a call adds to the log has as its [frame_count] the count
    left at the event's key by the prune step, which is at least the
    threshold; so after any feed to a new detector every alert of the log
    has a [frame_count] of at least the threshold. *)
Theorem alert_frame_count :
  (forall event current_time self,
      exists self',
        process_event event current_time self = Ok (tt, self')
        /\ (alerts self' = alerts self
            \/ exists a,
                alerts self' = alerts self ++ [a]
                /\ Alert.frame_count a = len (window_seq self' (key_of event))
                /\ Alert.frame_count a =
                   len (filter (fun t => current_time - t < window self)
                          (window_seq self (key_of event) ++ [current_time]))
                /\ threshold self <= Alert.frame_count a))
  /\ (forall feed interface threshold window,
         exists self',
           run feed (init interface threshold window) = Ok (tt, self')
           /\ Forall (fun a => threshold <= Alert.frame_count a) (alerts self')).
Proof.
  split.
  - intros event current_time self.
    destruct (process_event_ok event current_time self) as (s & Hs & Hp).
    exists s. split; [done|].
    destruct (alerts_processed _ _ _ _ Hp) as [H|[Hge H]]; [by left|right].
    eexists. split; [exact H|]. rewrite new_alert_frame_count.
    split; [done|]. split; [|done]. by rewrite (window_seq_processed _ _ _ _ Hp).
  - intros feed i th w. destruct (run_ok feed (init i th w)) as (s & Hs).
    exists s. split; [done|].
    apply (run_invariant
             (fun s => threshold s = th
                       /\ Forall (fun a => th <= Alert.frame_count a) (alerts s))
             feed _ _) in Hs; [by destruct Hs| |by split; [|constructor]].
    intros e t s1 s2 [Hth HP] Hstep. apply process_event_processed in Hstep.
    split; [by rewrite (pr_threshold _ _ _ _ Hstep)|].
    destruct (alerts_processed _ _ _ _ Hstep) as [->|[Hge ->]]; [done|].
    apply Forall_app. split; [done|]. apply Forall_singleton.
    rewrite new_alert_frame_count. lia.
Qed.

(** ** What a call changes *)

(** C10. A call of [process_event] appends the event to the event log, adds
    one to the count of its source in [source_counts] and of its destination
    in [target_counts] and leaves every other entry of the two counters as it
    was, changes the window store at the event's key only, appends nothing
    or one alert to the alert log, and leaves [threshold], [window],
    [interface] and [running] as they were. *)
Theorem process_event_frame :
  forall event current_time self,
    exists self',
      process_event event current_time self = Ok (tt, self')
      /\ events self' = events self ++ [event]
      /\ Counter.count (DeauthEvent.source_mac event) (source_counts self') =
         Counter.count (DeauthEvent.source_mac event) (source_counts self) + 1
      /\ (forall k, k <> DeauthEvent.source_mac event ->
            OrderedDict.get k (source_counts self') = OrderedDict.get k (source_counts self))
      /\ Counter.count (DeauthEvent.dest_mac event) (target_counts self') =
         Counter.count (DeauthEvent.dest_mac event) (target_counts self) + 1
      /\ (forall k, k <> DeauthEvent.dest_mac event ->
            OrderedDict.get k (target_counts self') = OrderedDict.get k (target_counts self))
      /\ (forall key, key <> key_of event ->
            deauth_counts self' !! key = deauth_counts self !! key)
      /\ (alerts self' = alerts self \/ exists a, alerts self' = alerts self ++ [a])
      /\ threshold self' = threshold self
      /\ window self' = window self
      /\ interface self' = interface self
      /\ running self' = running self.
Proof.
  intros event current_time self.
  destruct (process_event_ok event current_time self) as (s & Hs & Hp).
  exists s. split; [done|].
  destruct Hp as [Hi Hth Hw Hr He Hsc Htc Hdc Hal Hout].
  repeat split; try done.
  - rewrite Hsc. apply Counter_count_setitem_eq.
  - intros k Hk. rewrite Hsc. by apply OrderedDict_get_set_ne.
  - rewrite Htc. apply Counter_count_setitem_eq.
  - intros k Hk. rewrite Htc. by apply OrderedDict_get_set_ne.
  - intros key Hk. rewrite Hdc. by apply lookup_insert_ne.
  - rewrite Hal. destruct (decide _); [right; eauto | by left].
Qed.

(** ** Statistics *)

Lemma printed_alerts_app out1 out2 :
  printed_alerts (out1 ++ out2) = printed_alerts out1 ++ printed_alerts out2.
Proof.
  induction out1 as [|[e|a w] out1 IH]; simpl; [done|done|]. by rewrite IH.
Qed.

Lemma consistent_processed event current_time self self' :
  consistent self -> processed event current_time self self' -> consistent self'.
Proof.
  intros (Hsrc & Htgt & Hal) Hp. unfold consistent.
  rewrite (pr_source_counts _ _ _ _ Hp), (pr_target_counts _ _ _ _ Hp),
    (pr_events _ _ _ _ Hp), (pr_alerts _ _ _ _ Hp), (pr_stdout _ _ _ _ Hp).
  rewrite !Counter_total_incr, len_app_singleton, printed_alerts_app, <- Hal.
  repeat split; try lia.
  simpl. by destruct (decide _); [|rewrite app_nil_r].
Qed.

Lemma get_stats_ok self :
  get_stats self =
  Ok ({| total_events := len (events self);
         total_alerts := len (alerts self);
         unique_sources := len (source_counts self);
         unique_targets := len (target_counts self);
         top_sources := Counter.most_common 5 (source_counts self);
         top_targets := Counter.most_common 5 (target_counts self) |}, self).
Proof. reflexivity. Qed.

Lemma events_run feed self self' :
  run feed self = Ok (tt, self') -> events self' = events self ++ feed.*1.
Proof.
  revert self. induction feed as [|[e t] feed IH]; intros self H.
  - injection H as <-. by rewrite app_nil_r.
  - destruct (process_event_ok e t self) as (s & Hs & Hp).
    rewrite (run_cons _ _ _ _ _ Hs) in H. rewrite (IH _ H), (pr_events _ _ _ _ Hp).
    by rewrite <- app_assoc.
Qed.

(** C5. A new detector is consistent, and every call of [process_event]
    keeps it so: the counts of [source_counts] sum to the number of logged
    events, as do those of [target_counts], and the alert log is the
    sequence of alerts emitted to the console.  After a feed of N events to
    a new detector [get_stats] reports [total_events] = N and [total_alerts]
    = the number of alerts emitted, and both counters sum to
    [total_events]. *)
Theorem statistics_consistent :
  (forall interface threshold window, consistent (init interface threshold window))
  /\ (forall event current_time self,
         consistent self ->
         exists self',
           process_event event current_time self = Ok (tt, self') /\ consistent self')
  /\ (forall feed interface threshold window,
         exists stats self',
           (run feed ;; get_stats) (init interface threshold window) = Ok (stats, self')
           /\ events self' = feed.*1
           /\ total_events stats = len feed
           /\ total_alerts stats = len (printed_alerts (stdout self'))
           /\ Counter.total (source_counts self') = total_events stats
           /\ Counter.total (target_counts self') = total_events stats).
Proof.
  split; [|split].
  - intros i th w. by repeat split.
  - intros event current_time self Hc.
    destruct (process_event_ok event current_time self) as (s & Hs & Hp).
    exists s. split; [done|]. by eapply consistent_processed.
  - intros feed i th w. destruct (run_ok feed (init i th w)) as (s & Hs).
    eexists _, s. split.
    { erewrite bind_ok by exact Hs. apply get_stats_ok. }
    pose proof (events_run _ _ _ Hs) as Hev. simpl in Hev.
    apply (run_invariant consistent feed _ _) in Hs; [| |by repeat split].
    + destruct Hs as (Hsrc & Htgt & Hal). simpl.
      rewrite Hsrc, Htgt, Hal, Hev. unfold len. by rewrite length_fmap.
    + intros e t s1 s2 HP Hstep. apply process_event_processed in Hstep.
      by eapply consistent_processed.
Qed.

(** ** Absence of failure *)



(** ** The snapshot *)

(** C9. [get_stats] returns its result and leaves the detector as it was,
    every attribute and the console included; two calls in a row return the
    same result, and the detector is still as it was. *)
Theorem get_stats_idempotent :
  forall self,
    exists stats,
      get_stats self = Ok (stats, self)
      /\ (s1 ← get_stats; s2 ← get_stats; mret (s1, s2)) self = Ok ((stats, stats), self).
Proof.
  intros self. eexists. split; [apply get_stats_ok|].
  erewrite bind_ok by apply get_stats_ok.
  erewrite bind_ok by apply get_stats_ok.
  reflexivity.
Qed.

(** ** Pruning reaches the whole sequence *)

(** C6 (amended). The prune step removes every reading that is out of the
    window, wherever it stands in the sequence, and keeps the others in
    their order: what is left is the stored sequence with the new reading,
    filtered.  A reading that is out of the window is not in it, a reading
    that is in the window stays, and the result is a subsequence. *)
Theorem prune_filters_whole_sequence :
  forall event current_time self,
    exists self',
      process_event event current_time self = Ok (tt, self')
      /\ window_seq self' (key_of event) =
         filter (fun t => current_time - t < window self)
           (window_seq self (key_of event) ++ [current_time])
      /\ (forall t, window self <= current_time - t ->
                    t ∉ window_seq self' (key_of event))
      /\ (forall t, t ∈ window_seq self (key_of event) ->
                    current_time - t < window self ->
                    t ∈ window_seq self' (key_of event))
      /\ window_seq self' (key_of event)
           `sublist_of` window_seq self (key_of event) ++ [current_time].
Proof.
  intros event current_time self.
  destruct (process_event_ok event current_time self) as (s & Hs & Hp).
  exists s. split; [done|]. rewrite (window_seq_processed _ _ _ _ Hp). unfold pruned.
  split; [done|]. split; [|split].
  - intros t Hexp Ht. apply list_elem_of_filter in Ht as [Ht _]. lia.
  - intros t Ht Hin. apply list_elem_of_filter. split; [done|].
    apply elem_of_app. by left.
  - apply sublist_filter.
Qed.

(** With window 10, the key holds [100; 3] when the third call comes at
    105.  The reading 100 at the front is in the window, so pruning from the
    front would remove nothing and leave 3 in place; the call removes 3,
    from behind the front. *)
Lemma prune_removes_behind_front :
  exists self self',
    run clock_back_feed (init "wlan0" 10 10) = Ok (tt, self)
    /\ window_seq self "aa:bb:cc:dd:ee:01->11:22:33:44:55:66" = [100; 3]
    /\ process_event (demo_event "aa:bb:cc:dd:ee:01" "11:22:33:44:55:66" "deauth") 105 self
       = Ok (tt, self')
    /\ 105 - 100 < window self
    /\ window self <= 105 - 3
    /\ window_seq self' "aa:bb:cc:dd:ee:01->11:22:33:44:55:66" = [100; 105].
Proof.
  destruct (run_ok clock_back_feed (init "wlan0" 10 10)) as (s & Hs).
  destruct (process_event_ok
              (demo_event "aa:bb:cc:dd:ee:01" "11:22:33:44:55:66" "deauth") 105 s)
    as (s' & Hs' & Hp).
  exists s, s'. split; [done|].
  assert (Hseq : window_seq s "aa:bb:cc:dd:ee:01->11:22:33:44:55:66" = [100; 3]).
  { vm_compute in Hs. injection Hs as <-. reflexivity. }
  assert (Hw : window s = 10).
  { vm_compute in Hs. injection Hs as <-. reflexivity. }
  split; [done|]. split; [done|]. rewrite Hw. split; [lia|]. split; [lia|].
  change "aa:bb:cc:dd:ee:01->11:22:33:44:55:66"
    with (key_of (demo_event "aa:bb:cc:dd:ee:01" "11:22:33:44:55:66" "deauth")) in *.
  rewrite (window_seq_processed _ _ _ _ Hp). unfold pruned. rewrite Hseq, Hw.
  reflexivity.
Qed.

(** ** The most common entries *)

Lemma ins_perm x l : Counter.ins x l ≡ₚ x :: l.
Proof.
  induction l as [|y l IH]; simpl; [done|].
  destruct (decide (x.2 < y.2)); [|done].
  rewrite IH. apply Permutation_swap.
Qed.

Lemma ins_sorted x l : StronglySorted desc l -> StronglySorted desc (Counter.ins x l).
Proof.
  induction l as [|y l IH]; intros Hs; simpl.
  - by repeat constructor.
  - apply StronglySorted_cons in Hs as [Hy Hs].
    destruct (decide (x.2 < y.2)) as [Hlt|Hge].
    + apply StronglySorted_cons. split; [|by apply IH].
      rewrite ins_perm. constructor; [unfold desc; lia | done].
    + apply StronglySorted_cons. split; [|by apply StronglySorted_cons].
      constructor; [unfold desc; lia|].
      eapply Forall_impl; [exact Hy|]. unfold desc. intros z. lia.
Qed.

(** [ins] puts the entry in front of the entries of its own count. *)
Lemma ins_stable x l v :
  filter (fun p => p.2 = v) (Counter.ins x l) = filter (fun p => p.2 = v) (x :: l).
Proof.
  induction l as [|y l IH]; simpl; [done|].
  destruct (decide (x.2 < y.2)) as [Hlt|Hge]; [|done].
  rewrite filter_cons, IH, !filter_cons.
  destruct (decide (y.2 = v)), (decide (x.2 = v)); try done. lia.
Qed.

Lemma sorted_desc_perm l : Counter.sorted_desc l ≡ₚ l.
Proof.
  induction l as [|x l IH]; simpl; [done|]. by rewrite ins_perm, IH.
Qed.

Lemma sorted_desc_sorted l : StronglySorted desc (Counter.sorted_desc l).
Proof.
  induction l as [|x l IH]; simpl; [constructor | by apply ins_sorted].
Qed.

Lemma sorted_desc_stable l v :
  filter (fun p => p.2 = v) (Counter.sorted_desc l) = filter (fun p => p.2 = v) l.
Proof.
  induction l as [|x l IH]; simpl; [done|].
  by rewrite ins_stable, !filter_cons, IH.
Qed.

Lemma most_common_top_n n c : top_n n c (Counter.most_common n c).
Proof.
  exists (drop n (Counter.sorted_desc c)). unfold Counter.most_common.
  rewrite take_drop. split; [apply sorted_desc_perm|]. split.
  - by rewrite length_take, (Permutation_length (sorted_desc_perm c)).
  - split; [apply sorted_desc_sorted | apply sorted_desc_stable].
Qed.

(** A descending list is determined by the order it gives to the entries of
    each count. *)
Lemma desc_stable_unique l1 l2 :
  StronglySorted desc l1 -> StronglySorted desc l2 ->
  (forall v, filter (fun p => p.2 = v) l1 = filter (fun p => p.2 = v) l2) ->
  l1 = l2.
Proof.
  revert l2. induction l1 as [|x l1 IH]; intros l2 Hs1 Hs2 Hf.
  - destruct l2 as [|y l2]; [done|].
    specialize (Hf y.2). by rewrite filter_nil, filter_cons_True in Hf.
  - destruct l2 as [|y l2].
    { specialize (Hf x.2). by rewrite filter_nil, filter_cons_True in Hf. }
    apply StronglySorted_cons in Hs1 as [Hx Hs1].
    apply StronglySorted_cons in Hs2 as [Hy Hs2].
    assert (Hxy : x.2 <= y.2).
    { pose proof (Hf x.2) as H. rewrite (filter_cons_True _ x) in H by done.
      assert (Hin : x ∈ y :: l2).
      { eapply (proj1 (list_elem_of_filter (fun p => p.2 = x.2) _ _)).
        rewrite <- H. by left. }
      apply elem_of_cons in Hin as [->|Hin]; [done|].
      rewrite Forall_forall in Hy. by apply Hy. }
    assert (Hyx : y.2 <= x.2).
    { pose proof (Hf y.2) as H. rewrite (filter_cons_True _ y) in H by done.
      assert (Hin : y ∈ x :: l1).
      { eapply (proj1 (list_elem_of_filter (fun p => p.2 = y.2) _ _)).
        rewrite H. by left. }
      apply elem_of_cons in Hin as [->|Hin]; [done|].
      rewrite Forall_forall in Hx. by apply Hx. }
    assert (x = y) as <-.
    { pose proof (Hf x.2) as H.
      rewrite !filter_cons_True in H by lia. by injection H. }
    f_equal. apply IH; [done|done|]. intros v. specialize (Hf v).
    rewrite !filter_cons in Hf. destruct (decide (x.2 = v)); [by injection Hf | done].
Qed.

(** [top_n] has one solution, so it says what [most_common] returns. *)
Lemma top_n_unique n c l : top_n n c l -> l = Counter.most_common n c.
Proof.
  intros (rest & Hperm & Hlen & Hsorted & Hstable).
  assert (Heq : l ++ rest = Counter.sorted_desc c).
  { apply desc_stable_unique; [done | apply sorted_desc_sorted |].
    intros v. by rewrite Hstable, sorted_desc_stable. }
  unfold Counter.most_common. rewrite <- Heq.
  apply Permutation_length in Hperm. rewrite length_app in Hperm.
  symmetry. destruct (decide (n <= length c)%nat) as [Hle|Hgt].
  - apply take_app_length'. lia.
  - assert (rest = []) as -> by (apply length_zero_iff_nil; lia).
    rewrite app_nil_r. apply take_ge. lia.
Qed.

(** The keys of a counter after one more count of [k]. *)
Lemma keys_setitem k v c :
  (Counter.setitem k v c).*1 = if decide (k ∈ c.*1) then c.*1 else c.*1 ++ [k].
Proof.
  unfold Counter.setitem. induction c as [|[k' v'] c IH]; csimpl.
  - destruct (decide (k ∈ [])) as [Hin|_]; [by apply elem_of_nil in Hin | done].
  - destruct (decide (k = k')) as [->|Hne]; csimpl.
    + destruct (decide (k' ∈ k' :: c.*1)) as [_|Hnin]; [done|].
      exfalso. apply Hnin. by left.
    + rewrite IH. destruct (decide (k ∈ c.*1)) as [Hin|Hnin].
      * destruct (decide (k ∈ k' :: c.*1)) as [_|Hnin]; [done|].
        exfalso. apply Hnin. by right.
      * destruct (decide (k ∈ k' :: c.*1)) as [Hin|_]; [|done].
        apply elem_of_cons in Hin. tauto.
Qed.

(** Over a feed to a new detector, [source_counts] holds the sources in the
    order in which they were first seen, each with the number of its
    events. *)
Lemma source_counts_run feed interface threshold window self :
  run feed (init interface threshold window) = Ok (tt, self) ->
  (source_counts self).*1 = first_seen (DeauthEvent.source_mac <$> feed.*1)
  /\ forall k, Counter.count k (source_counts self) =
               len (filter (fun e => DeauthEvent.source_mac e = k) feed.*1).
Proof.
  revert self. induction feed as [|[e t] feed IH] using rev_ind; intros self Hrun.
  - injection Hrun as <-. by split.
  - destruct (run_ok feed (init interface threshold window)) as (s0 & Hs0).
    rewrite (run_snoc _ _ _ _ _ Hs0) in Hrun. apply process_event_processed in Hrun.
    destruct (IH s0 Hs0) as [Hkeys Hcount].
    rewrite (pr_source_counts _ _ _ _ Hrun). split.
    + rewrite keys_setitem, Hkeys, !fmap_app. unfold first_seen. csimpl.
      by rewrite foldl_snoc.
    + intros k. rewrite !fmap_app, filter_app. csimpl.
      destruct (decide (k = DeauthEvent.source_mac e)) as [->|Hne].
      * rewrite Counter_count_setitem_eq, Hcount.
        rewrite filter_cons_True, filter_nil by done. by rewrite len_app_singleton.
      * rewrite Counter_count_setitem_ne, Hcount by done.
        rewrite filter_cons_False, filter_nil by congruence. by rewrite app_nil_r.
Qed.

Lemma target_counts_run feed interface threshold window self :
  run feed (init interface threshold window) = Ok (tt, self) ->
  (target_counts self).*1 = first_seen (DeauthEvent.dest_mac <$> feed.*1)
  /\ forall k, Counter.count k (target_counts self) =
               len (filter (fun e => DeauthEvent.dest_mac e = k) feed.*1).
Proof.
  revert self. induction feed as [|[e t] feed IH] using rev_ind; intros self Hrun.
  - injection Hrun as <-. by split.
  - destruct (run_ok feed (init interface threshold window)) as (s0 & Hs0).
    rewrite (run_snoc _ _ _ _ _ Hs0) in Hrun. apply process_event_processed in Hrun.
    destruct (IH s0 Hs0) as [Hkeys Hcount].
    rewrite (pr_target_counts _ _ _ _ Hrun). split.
    + rewrite keys_setitem, Hkeys, !fmap_app. unfold first_seen. csimpl.
      by rewrite foldl_snoc.
    + intros k. rewrite !fmap_app, filter_app. csimpl.
      destruct (decide (k = DeauthEvent.dest_mac e)) as [->|Hne].
      * rewrite Counter_count_setitem_eq, Hcount.
        rewrite filter_cons_True, filter_nil by done. by rewrite len_app_singleton.
      * rewrite Counter_count_setitem_ne, Hcount by done.
        rewrite filter_cons_False, filter_nil by congruence. by rewrite app_nil_r.
Qed.

(** C8 (amended). [get_stats] returns the numbers of logged events and
    alerts (and the sizes of the two counters) and, for sources and for
    targets, the first five entries of the counter in descending order of
    count, entries of equal count in the order in which they entered the
    counter; five is fixed in the call, and [get_stats] takes no argument.
    The result is the only list of that description.  Over a feed to a new
    detector, the order in which sources, and targets, entered their
    counter is the order in which they were first seen, and the count of
    each is the number of its events. *)
Theorem get_stats_top_five :
  (forall self,
      exists stats,
        get_stats self = Ok (stats, self)
        /\ total_events stats = len (events self)
        /\ total_alerts stats = len (alerts self)
        /\ unique_sources stats = len (source_counts self)
        /\ unique_targets stats = len (target_counts self)
        /\ top_n 5 (source_counts self) (top_sources stats)
        /\ top_n 5 (target_counts self) (top_targets stats)
        /\ (forall l, top_n 5 (source_counts self) l -> l = top_sources stats)
        /\ (forall l, top_n 5 (target_counts self) l -> l = top_targets stats))
  /\ (forall feed interface threshold window,
         exists self,
           run feed (init interface threshold window) = Ok (tt, self)
           /\ (source_counts self).*1 = first_seen (DeauthEvent.source_mac <$> feed.*1)
           /\ (forall k, Counter.count k (source_counts self) =
                         len (filter (fun e => DeauthEvent.source_mac e = k) feed.*1))
           /\ (target_counts self).*1 = first_seen (DeauthEvent.dest_mac <$> feed.*1)
           /\ (forall k, Counter.count k (target_counts self) =
                         len (filter (fun e => DeauthEvent.dest_mac e = k) feed.*1))).
Proof.
  split.
  - intros self. eexists. split; [apply get_stats_ok|]. simpl.
    repeat split; try apply most_common_top_n; apply top_n_unique.
  - intros feed i th w. destruct (run_ok feed (init i th w)) as (s & Hs).
    exists s. split; [done|].
    destruct (source_counts_run _ _ _ _ _ Hs) as [Hsk Hsc].
    destruct (target_counts_run _ _ _ _ _ Hs) as [Htk Htc].
    done.
Qed.

(** With six sources counted, [get_stats] returns five of them: the caller
    has no way to ask it for the six most common. *)
Lemma get_stats_returns_five_of_six :
  exists self stats,
    run six_sources_feed (init "wlan0" 10 60) = Ok (tt, self)
    /\ get_stats self = Ok (stats, self)
    /\ length (source_counts self) = 6%nat
    /\ length (top_sources stats) = 5%nat
    /\ length (Counter.most_common 6 (source_counts self)) = 6%nat
    /\ top_sources stats <> Counter.most_common 6 (source_counts self).
Proof.
  destruct (run_ok six_sources_feed (init "wlan0" 10 60)) as (s & Hs).
  exists s. eexists. split; [done|]. split; [apply get_stats_ok|].
  vm_compute in Hs. injection Hs as <-. simpl.
  split; [done|]. split; [done|]. split; [done|].
  intros H. apply (f_equal length) in H. vm_compute in H. discriminate.
Qed.

Ltac by_evaluation := refine (bool_decide_unpack _ _); vm_compute; exact I.

Lemma alert_iff_threshold_witness :
  exists self',
    run burst_feed demo_detector = Ok (tt, self')
    /\ window_seq self' "aa:bb:cc:dd:ee:01->11:22:33:44:55:66" = [0; 1; 2; 3]
    /\ alerts self' = burst_alerts 3 1 burst_feed.
Proof.
  apply (proj2 alert_iff_threshold "aa:bb:cc:dd:ee:01->11:22:33:44:55:66"
           burst_feed "demo" 3 20); by_evaluation.
Defined.

Lemma count_is_in_window_readings_witness :
  exists self self',
    run pruning_feed demo_detector = Ok (tt, self)
    /\ process_event (demo_event "aa:bb:cc:dd:ee:01" "11:22:33:44:55:66" "deauth") 26 self
       = Ok (tt, self')
    /\ len (window_seq self' "aa:bb:cc:dd:ee:01->11:22:33:44:55:66") =
       len (filter (fun t => 26 - t < 20)
              (history (pruning_feed
                          ++ [(demo_event "aa:bb:cc:dd:ee:01" "11:22:33:44:55:66" "deauth", 26)])
                 "aa:bb:cc:dd:ee:01->11:22:33:44:55:66")).
Proof.
  apply (proj2 count_is_in_window_readings pruning_feed
           (demo_event "aa:bb:cc:dd:ee:01" "11:22:33:44:55:66" "deauth") 26 "demo" 3 20).
  by_evaluation.
Defined.

Lemma alert_classification_witness :
  Alert.severity
    (new_alert (demo_event "aa:bb:cc:dd:ee:02" "ff:ff:ff:ff:ff:ff" "deauth") 3) = "critical"
  /\ Alert.attack_type
       (new_alert (demo_event "aa:bb:cc:dd:ee:02" "ff:ff:ff:ff:ff:ff" "deauth") 3)
     = "Broadcast Deauth Attack".
Proof.
  apply (proj1 (proj2 (proj1 alert_classification
                         (demo_event "aa:bb:cc:dd:ee:02" "ff:ff:ff:ff:ff:ff" "deauth") 3))).
  reflexivity.
Defined.

Lemma statistics_consistent_witness :
  exists self',
    process_event (demo_event "aa:bb:cc:dd:ee:01" "11:22:33:44:55:66" "deauth") 0
      demo_detector = Ok (tt, self')
    /\ consistent self'.
Proof.
  apply (proj1 (proj2 statistics_consistent)).
  repeat split; reflexivity.
Defined.

Lemma prune_filters_whole_sequence_witness :
  exists self',
    process_event (demo_event "aa:bb:cc:dd:ee:01" "11:22:33:44:55:66" "deauth") 105
      used_detector = Ok (tt, self')
    /\ (3 ∉ window_seq self' "aa:bb:cc:dd:ee:01->11:22:33:44:55:66")
    /\ (100 ∈ window_seq self' "aa:bb:cc:dd:ee:01->11:22:33:44:55:66").
Proof.
  destruct (prune_filters_whole_sequence
              (demo_event "aa:bb:cc:dd:ee:01" "11:22:33:44:55:66" "deauth") 105 used_detector)
    as (s & Hs & _ & Hout & Hin & _).
  exists s. split; [exact Hs|]. split.
  - apply Hout. simpl. lia.
  - apply Hin; [by_evaluation | simpl; lia].
Defined.


Lemma get_stats_top_five_witness :
  exists stats,
    get_stats counted_detector = Ok (stats, counted_detector)
    /\ [("aa:bb:cc:dd:ee:01", 2); ("aa:bb:cc:dd:ee:03", 1); ("aa:bb:cc:dd:ee:02", 1)]
       = top_sources stats
    /\ [("ff:ff:ff:ff:ff:ff", 2); ("11:22:33:44:55:66", 1); ("77:88:99:aa:bb:cc", 1)]
       = top_targets stats.
Proof.
  destruct (proj1 get_stats_top_five counted_detector)
    as (st & Hst & _ & _ & _ & _ & _ & _ & Hsources & Htargets).
  exists st. split; [exact Hst|]. split.
  - apply Hsources. exact (most_common_top_n 5 (source_counts counted_detector)).
  - apply Htargets. exact (most_common_top_n 5 (target_counts counted_detector)).
Defined.

Lemma process_event_frame_witness :
  exists self',
    process_event (demo_event "aa:bb:cc:dd:ee:01" "11:22:33:44:55:66" "deauth") 105
      used_detector = Ok (tt, self')
    /\ OrderedDict.get "aa:bb:cc:dd:ee:02" (source_counts self') = Some 1
    /\ deauth_counts self' !! "aa:bb:cc:dd:ee:02->11:22:33:44:55:66" = None.
Proof.
  destruct (process_event_frame
              (demo_event "aa:bb:cc:dd:ee:01" "11:22:33:44:55:66" "deauth") 105 used_detector)
    as (s & Hs & _ & _ & Hsrc & _ & _ & Hdc & _).
  exists s. split; [exact Hs|]. split.
  - rewrite Hsrc; [reflexivity | discriminate].
  - rewrite Hdc; [reflexivity | discriminate].
Defined.

(** * Further properties of the engine *)

(** ** Keys are independent of each other *)

Lemma alert_key_new_alert event count : alert_key (new_alert event count) = key_of event.
Proof. unfold alert_key, key_of, new_alert. by destruct (decide _). Qed.

Lemma per_key_simulation key feed self sub :
  window_seq self key = window_seq sub key ->
  threshold self = threshold sub ->
  window self = window sub ->
  exists self' sub' added,
    run feed self = Ok (tt, self')
    /\ run (at_key key feed) sub = Ok (tt, sub')
    /\ window_seq self' key = window_seq sub' key
    /\ alerts sub' = alerts sub ++ added
    /\ filter (fun a => alert_key a = key) (alerts self')
       = filter (fun a => alert_key a = key) (alerts self) ++ added.
Proof.
  revert self sub. induction feed as [|[e t] feed IH]; intros self sub Hseq Hth Hw.
  - exists self, sub, []. by rewrite !app_nil_r.
  - destruct (process_event_ok e t self) as (s1 & Hs1 & Hp1).
    rewrite (run_cons _ _ _ _ _ Hs1). unfold at_key. rewrite filter_cons. simpl.
    destruct (decide (key_of e = key)) as [Hk|Hk].
    + destruct (process_event_ok e t sub) as (s2 & Hs2 & Hp2).
      rewrite (run_cons _ _ _ _ _ Hs2).
      assert (Hpr : pruned self e t = pruned sub e t).
      { unfold pruned. by rewrite Hk, Hseq, Hw. }
      destruct (IH s1 s2) as (s1' & s2' & added & Hr1 & Hr2 & Hseq' & Hal2 & Hal1).
      { rewrite <- Hk, (window_seq_processed _ _ _ _ Hp1),
          (window_seq_processed _ _ _ _ Hp2). done. }
      { by rewrite (pr_threshold _ _ _ _ Hp1), (pr_threshold _ _ _ _ Hp2). }
      { by rewrite (pr_window _ _ _ _ Hp1), (pr_window _ _ _ _ Hp2). }
      rewrite (pr_alerts _ _ _ _ Hp1) in Hal1. rewrite (pr_alerts _ _ _ _ Hp2) in Hal2.
      rewrite <- Hpr, <- Hth in Hal2.
      destruct (decide (threshold self <= len (pruned self e t))).
      * exists s1', s2', (new_alert e (len (pruned self e t)) :: added).
        split; [done|]. split; [done|]. split; [done|].
        rewrite Hal1, Hal2, filter_app, <- !app_assoc.
        rewrite filter_cons_True by (by rewrite alert_key_new_alert). done.
      * by exists s1', s2', added.
    + destruct (IH s1 sub) as (s1' & s2' & added & Hr1 & Hr2 & Hseq' & Hal2 & Hal1).
      { rewrite (window_seq_processed_ne _ _ _ _ _ Hp1); [done | congruence]. }
      { by rewrite (pr_threshold _ _ _ _ Hp1). }
      { by rewrite (pr_window _ _ _ _ Hp1). }
      exists s1', s2', added. split; [done|]. split; [done|]. split; [done|].
      split; [done|]. rewrite Hal1, (pr_alerts _ _ _ _ Hp1).
      destruct (decide (threshold self <= len (pruned self e t))); [|done].
      rewrite filter_app, filter_cons_False, filter_nil, app_nil_r; [done|].
      by rewrite alert_key_new_alert.
Qed.

(** X1. What the detector holds and reports for one key does not depend on
    the traffic at other keys: after any feed to a new detector, the
    sequence stored at a key and the alerts raised at it are those of the
    same detector fed the events of that key alone. *)
Theorem detection_per_key_is_independent :
  forall feed key interface threshold window,
    exists self alone,
      run feed (init interface threshold window) = Ok (tt, self)
      /\ run (at_key key feed) (init interface threshold window) = Ok (tt, alone)
      /\ window_seq self key = window_seq alone key
      /\ filter (fun a => alert_key a = key) (alerts self) = alerts alone.
Proof.
  intros feed key i th w.
  destruct (per_key_simulation key feed (init i th w) (init i th w))
    as (s & s' & added & Hs & Hs' & Hseq & Hal' & Hal); try done.
  exists s, s'. split; [done|]. split; [done|]. split; [done|].
  rewrite Hal, Hal'. done.
Qed.

(** ** The window store never forgets a key *)

(** X2. A call adds the event's key to the window store and removes none;
    after any feed to a new detector the store has an entry for every key
    that was seen, and for no other, whatever was pruned. *)
Theorem window_store_keeps_every_key :
  (forall event current_time self,
      exists self',
        process_event event current_time self = Ok (tt, self')
        /\ dom (deauth_counts self') = {[ key_of event ]} ∪ dom (deauth_counts self))
  /\ (forall feed interface threshold window,
         exists self,
           run feed (init interface threshold window) = Ok (tt, self)
           /\ dom (deauth_counts self) = list_to_set (key_of <$> feed.*1)).
Proof.
  split.
  - intros event current_time self.
    destruct (process_event_ok event current_time self) as (s & Hs & Hp).
    exists s. split; [done|]. rewrite (pr_deauth_counts _ _ _ _ Hp).
    apply dom_insert_L.
  - intros feed i th w. destruct (run_ok feed (init i th w)) as (s & Hs).
    exists s. split; [done|]. revert s Hs.
    induction feed as [|[e t] feed IH] using rev_ind; intros s Hs.
    + injection Hs as <-. simpl. apply dom_empty_L.
    + destruct (run_ok feed (init i th w)) as (s0 & Hs0).
      rewrite (run_snoc _ _ _ _ _ Hs0) in Hs. apply process_event_processed in Hs.
      rewrite (pr_deauth_counts _ _ _ _ Hs), dom_insert_L, (IH _ Hs0).
      rewrite !fmap_app, list_to_set_app_L. csimpl.
      rewrite (right_id_L ∅ (∪)). apply (comm_L (∪)).
Qed.

(** ** Degenerate settings *)

Lemma pruned_nonpositive_window event current_time self :
  window self <= 0 ->
  (forall t, t ∈ window_seq self (key_of event) -> current_time - t >= 0) ->
  pruned self event current_time = [].
Proof.
  intros Hw Hpast. unfold pruned.
  destruct (filter _ _) as [|x l] eqn:E; [done|].
  assert (Hx : x ∈ filter (fun t => current_time - t < window self)
                 (window_seq self (key_of event) ++ [current_time]))
    by (rewrite E; by left).
  apply list_elem_of_filter in Hx as [Hlt Hx].
  apply elem_of_app in Hx as [Hx|Hx].
  - apply Hpast in Hx. lia.
  - apply list_elem_of_singleton in Hx as ->. lia.
Qed.

(** X3. With a window of zero or less the reading just recorded is pruned
    at once: after any feed to a new detector every stored sequence is
    empty, while its key stays in the store, and with a threshold above
    zero no alert is ever raised. *)
Theorem nonpositive_window_counts_nothing :
  forall feed interface threshold window,
    window <= 0 ->
    exists self,
      run feed (init interface threshold window) = Ok (tt, self)
      /\ (forall event current_time,
            (event, current_time) ∈ feed ->
            deauth_counts self !! key_of event = Some [])
      /\ (forall key, window_seq self key = [])
      /\ (0 < threshold -> alerts self = []).
Proof.
  intros feed i th w Hw. destruct (run_ok feed (init i th w)) as (s & Hs).
  exists s. split; [done|]. revert s Hs.
  induction feed as [|[e t] feed IH] using rev_ind; intros s Hs.
  - injection Hs as <-. split; [|split]; try done.
    intros e t Hin. by apply elem_of_nil in Hin.
  - destruct (run_ok feed (init i th w)) as (s0 & Hs0).
    rewrite (run_snoc _ _ _ _ _ Hs0) in Hs. apply process_event_processed in Hs.
    destruct (IH _ Hs0) as (Hkeys & Hempty & Hal).
    assert (Hw0 : window s0 = w).
    { apply (run_invariant (fun s => window s = w) feed _ _) in Hs0; [done| |done].
      intros e' t' s1 s2 H1 H2. apply process_event_processed in H2.
      by rewrite (pr_window _ _ _ _ H2). }
    assert (Hpr : pruned s0 e t = []).
    { apply pruned_nonpositive_window; [lia|]. intros x Hx.
      rewrite Hempty in Hx. by apply elem_of_nil in Hx. }
    assert (Hth0 : threshold s0 = th).
    { apply (run_invariant (fun s => threshold s = th) feed _ _) in Hs0; [done| |done].
      intros e' t' s1 s2 H1 H2. apply process_event_processed in H2.
      by rewrite (pr_threshold _ _ _ _ H2). }
    split; [|split].
    + intros e' t' Hin. rewrite (pr_deauth_counts _ _ _ _ Hs), Hpr.
      destruct (decide (key_of e' = key_of e)) as [->|Hne].
      * apply lookup_insert_eq.
      * rewrite lookup_insert_ne by done.
        apply elem_of_app in Hin as [Hin|Hin]; [by eapply Hkeys|].
        apply list_elem_of_singleton in Hin. congruence.
    + intros key. destruct (decide (key = key_of e)) as [->|Hne].
      * by rewrite (window_seq_processed _ _ _ _ Hs).
      * by rewrite (window_seq_processed_ne _ _ _ _ _ Hs Hne).
    + intros Hpos. rewrite (pr_alerts _ _ _ _ Hs), Hpr, Hth0.
      rewrite decide_False by (unfold len; simpl; lia). by apply Hal.
Qed.

Lemma alert_fields_new_alert event count :
  alert_fields (new_alert event count) = event_fields event.
Proof. unfold alert_fields, event_fields, new_alert. by destruct (decide _). Qed.

Lemma current_reading_kept event current_time self :
  0 < window self -> current_time ∈ pruned self event current_time.
Proof.
  intros Hw. unfold pruned. apply list_elem_of_filter. split; [lia|].
  apply elem_of_app. right. by apply list_elem_of_singleton.
Qed.

Lemma len_nonneg {A : Type} (l : list A) : 0 <= len l.
Proof. unfold len. lia. Qed.

Lemma len_pos_elem {A : Type} (l : list A) (x : A) : x ∈ l -> 1 <= len l.
Proof. intros H. destruct l; [by apply elem_of_nil in H|]. unfold len. simpl. lia. Qed.

(** X4. With a threshold of zero or less, or a threshold of one and a window
    above zero, every event raises an alert: after any feed to a new
    detector the alert log has one alert per logged event, in order, each
    with the timestamp and addresses of its event. *)
Theorem low_threshold_alerts_on_every_event :
  forall feed interface threshold window,
    threshold <= 0 \/ (threshold <= 1 /\ 0 < window) ->
    exists self,
      run feed (init interface threshold window) = Ok (tt, self)
      /\ alert_fields <$> alerts self = event_fields <$> feed.*1
      /\ len (alerts self) = len feed.
Proof.
  intros feed i th w Hlow. destruct (run_ok feed (init i th w)) as (s & Hs).
  exists s. split; [done|].
  assert (H : alert_fields <$> alerts s = event_fields <$> feed.*1).
  { revert s Hs. induction feed as [|[e t] feed IH] using rev_ind; intros s Hs.
    - by injection Hs as <-.
    - destruct (run_ok feed (init i th w)) as (s0 & Hs0).
      rewrite (run_snoc _ _ _ _ _ Hs0) in Hs. apply process_event_processed in Hs.
      assert (Hcfg : threshold s0 = th /\ window s0 = w).
      { apply (run_invariant (fun s => threshold s = th /\ window s = w)
                 feed _ _) in Hs0; [done| |done].
        intros e' t' s1 s2 [H1 H1'] H2. apply process_event_processed in H2.
        by rewrite (pr_threshold _ _ _ _ H2), (pr_window _ _ _ _ H2). }
      destruct Hcfg as [Hth Hw].
      rewrite (pr_alerts _ _ _ _ Hs), decide_True.
      + rewrite !fmap_app, (IH _ Hs0). csimpl. by rewrite alert_fields_new_alert.
      + rewrite Hth. destruct Hlow as [Hle|[Hle Hpos]].
        * pose proof (len_nonneg (pruned s0 e t)). lia.
        * pose proof (len_pos_elem _ _ (current_reading_kept e t s0 ltac:(lia))). lia. }
  split; [done|]. apply (f_equal length) in H. rewrite !length_fmap in H.
  unfold len. by rewrite H.
Qed.

(** ** Alerts and events *)

(** X5. Every alert of the log was raised for a logged event, in the order
    of the events and at most once for each: the timestamps and addresses
    of the alerts are a subsequence of those of the events, so there are
    never more alerts than events. *)
Theorem alerts_follow_events :
  forall feed interface threshold window,
    exists self,
      run feed (init interface threshold window) = Ok (tt, self)
      /\ alert_fields <$> alerts self `sublist_of` event_fields <$> events self
      /\ len (alerts self) <= len (events self).
Proof.
  intros feed i th w. destruct (run_ok feed (init i th w)) as (s & Hs).
  exists s. split; [done|].
  assert (H : alert_fields <$> alerts s `sublist_of` event_fields <$> events s).
  { apply (run_invariant
             (fun s => alert_fields <$> alerts s `sublist_of` event_fields <$> events s)
             feed _ _) in Hs; [done| |done].
    intros e t s1 s2 H1 H2. apply process_event_processed in H2.
    rewrite (pr_events _ _ _ _ H2), (pr_alerts _ _ _ _ H2), fmap_app.
    destruct (decide _).
    - rewrite fmap_app. apply sublist_app; [done|]. csimpl.
      by rewrite alert_fields_new_alert.
    - by apply sublist_inserts_r. }
  split; [done|]. apply sublist_length in H. rewrite !length_fmap in H.
  unfold len. lia.
Qed.

(** ** Pruning under a clock that does not go back *)

(** In a sorted list, the elements that pass a test which every larger
    element passes too are the end of the list. *)
Lemma filter_sorted_suffix (P : Z -> Prop) `{!forall x, Decision (P x)} l :
  StronglySorted Z.le l ->
  (forall x y, x <= y -> P x -> P y) ->
  filter P l `suffix_of` l.
Proof.
  intros Hs Hup. induction l as [|x l IH]; [done|].
  apply StronglySorted_cons in Hs as [Hx Hs].
  destruct (decide (P x)) as [HP|HP].
  - rewrite filter_all; [done|]. constructor; [done|].
    eapply Forall_impl; [exact Hx|]. intros y Hy. by eapply Hup.
  - rewrite filter_cons_False by done. apply suffix_cons_r. by apply IH.
Qed.

Lemma history_bounded feed key T :
  Forall (fun t => t <= T) feed.*2 -> Forall (fun t => t <= T) (history feed key).
Proof.
  intros H. apply Forall_forall. intros t Ht. unfold history in Ht.
  apply list_elem_of_fmap in Ht as ([e t'] & -> & Hin).
  apply list_elem_of_filter in Hin as [_ Hin].
  rewrite Forall_forall in H. apply H. by apply (list_elem_of_fmap_2 snd) in Hin.
Qed.

Lemma history_sorted feed key :
  StronglySorted Z.le feed.*2 -> StronglySorted Z.le (history feed key).
Proof.
  induction feed as [|[e t] feed IH] using rev_ind; intros Hs; [constructor|].
  rewrite fmap_app in Hs. apply StronglySorted_app in Hs as (Hle & Hs & _).
  destruct (decide (key = key_of e)) as [->|Hne].
  - rewrite history_snoc_eq. apply StronglySorted_app. split; [|split].
    + intros x y Hx Hy. apply list_elem_of_singleton in Hy as ->.
      assert (Hb : Forall (fun x => x <= t) (history feed (key_of e))).
      { apply history_bounded, Forall_forall. intros z Hz. apply Hle; [done|].
        csimpl. by apply list_elem_of_singleton. }
      rewrite Forall_forall in Hb. by apply Hb.
    + by apply IH.
    + repeat constructor.
  - rewrite history_snoc_ne by done. by apply IH.
Qed.

Lemma suffix_sorted (l1 l2 : list Z) :
  l1 `suffix_of` l2 -> StronglySorted Z.le l2 -> StronglySorted Z.le l1.
Proof. intros [k ->] H. by apply StronglySorted_app in H as (_ & _ & H). Qed.

Lemma stored_closed_form feed interface threshold w self key :
  StronglySorted Z.le feed.*2 ->
  run feed (init interface threshold w) = Ok (tt, self) ->
  window_seq self key =
  filter (fun t => latest (history feed key) - t < w) (history feed key).
Proof.
  revert self. induction feed as [|[e t] feed IH] using rev_ind; intros s Hsorted Hs.
  - injection Hs as <-. unfold window_seq, history. simpl. by rewrite lookup_empty.
  - destruct (run_ok feed (init interface threshold w)) as (s0 & Hs0).
    rewrite (run_snoc _ _ _ _ _ Hs0) in Hs. apply process_event_processed in Hs.
    rewrite fmap_app in Hsorted. apply StronglySorted_app in Hsorted as (Hle & Hsf & _).
    specialize (IH _ Hsf Hs0).
    assert (Hw : window s0 = w).
    { apply (run_invariant (fun s => window s = w) feed _ _) in Hs0; [done| |done].
      intros e' t' s1 s2 H1 H2. apply process_event_processed in H2.
      by rewrite (pr_window _ _ _ _ H2). }
    destruct (decide (key = key_of e)) as [->|Hne].
    + rewrite (window_seq_processed _ _ _ _ Hs), history_snoc_eq. unfold pruned, latest.
      rewrite last_snoc, Hw, IH. simpl. rewrite !filter_app. f_equal.
      destruct (history feed (key_of e)) as [|x l] eqn:E using rev_ind; [done|].
      clear IHl. unfold latest. rewrite last_snoc. simpl.
      apply list_filter_filter_l. intros y.
      assert (x <= t); [|lia].
      assert (Hb : Forall (fun x => x <= t) (history feed (key_of e))).
      { apply history_bounded, Forall_forall. intros z Hz. apply Hle; [done|].
        csimpl. by apply list_elem_of_singleton. }
      rewrite E, Forall_app, Forall_singleton in Hb. tauto.
    + rewrite (window_seq_processed_ne _ _ _ _ _ Hs Hne), history_snoc_ne by done.
      apply IH.
Qed.

(** X6. When the clock readings of a feed do not go back, what is stored at
    a key is the readings recorded there that lie within one window of the
    latest of them; pruning has then only ever removed from the front: the
    stored sequence is the end of the sequence of all readings recorded at
    the key, and it is in non-decreasing order. *)
Theorem stored_is_window_of_latest_reading :
  forall feed interface threshold window,
    StronglySorted Z.le feed.*2 ->
    exists self,
      run feed (init interface threshold window) = Ok (tt, self)
      /\ forall key,
           window_seq self key =
             filter (fun t => latest (history feed key) - t < window) (history feed key)
           /\ window_seq self key `suffix_of` history feed key
           /\ StronglySorted Z.le (window_seq self key).
Proof.
  intros feed i th w Hsorted. destruct (run_ok feed (init i th w)) as (s & Hs).
  exists s. split; [done|]. intros key.
  pose proof (stored_closed_form _ _ _ _ _ key Hsorted Hs) as Hform.
  assert (Hsuf : window_seq s key `suffix_of` history feed key).
  { rewrite Hform. apply filter_sorted_suffix; [by apply history_sorted|].
    intros x y. lia. }
  split; [done|]. split; [done|].
  eapply suffix_sorted; [exact Hsuf|]. by apply history_sorted.
Qed.

(** ** What the statistics count *)

Lemma tally_snoc keys k :
  tally (keys ++ [k]) = Counter.setitem k (Counter.count k (tally keys) + 1) (tally keys).
Proof. unfold tally. by rewrite foldl_snoc. Qed.

Lemma tally_keys keys : (tally keys).*1 = first_seen keys.
Proof.
  induction keys as [|k keys IH] using rev_ind; [done|].
  rewrite tally_snoc, keys_setitem, IH. unfold first_seen. by rewrite foldl_snoc.
Qed.

Lemma tally_count keys k : Counter.count k (tally keys) = len (filter (fun k' => k' = k) keys).
Proof.
  induction keys as [|k' keys IH] using rev_ind; [done|].
  rewrite tally_snoc, filter_app. destruct (decide (k = k')) as [->|Hne].
  - rewrite Counter_count_setitem_eq, IH, filter_cons_True, filter_nil by done.
    by rewrite len_app_singleton.
  - rewrite Counter_count_setitem_ne, IH by done.
    rewrite filter_cons_False, filter_nil by congruence. by rewrite app_nil_r.
Qed.

Lemma counters_run feed interface threshold window self :
  run feed (init interface threshold window) = Ok (tt, self) ->
  source_counts self = tally (sources feed) /\ target_counts self = tally (targets feed).
Proof.
  revert self. induction feed as [|[e t] feed IH] using rev_ind; intros self Hrun.
  - by injection Hrun as <-.
  - destruct (run_ok feed (init interface threshold window)) as (s0 & Hs0).
    rewrite (run_snoc _ _ _ _ _ Hs0) in Hrun. apply process_event_processed in Hrun.
    destruct (IH s0 Hs0) as [Hsrc Htgt]. unfold sources, targets.
    rewrite (pr_source_counts _ _ _ _ Hrun), (pr_target_counts _ _ _ _ Hrun), Hsrc, Htgt.
    rewrite !fmap_app. csimpl. by rewrite !tally_snoc.
Qed.

Lemma first_seen_snoc keys k :
  first_seen (keys ++ [k]) =
  if decide (k ∈ first_seen keys) then first_seen keys else first_seen keys ++ [k].
Proof. unfold first_seen. by rewrite foldl_snoc. Qed.

Lemma elem_of_first_seen keys k : k ∈ first_seen keys <-> k ∈ keys.
Proof.
  induction keys as [|k' keys IH] using rev_ind; [done|].
  rewrite first_seen_snoc, elem_of_app, list_elem_of_singleton.
  destruct (decide (k' ∈ first_seen keys)) as [Hin|Hnin].
  - rewrite IH. split; [tauto|]. intros [H| ->]; [done|]. by apply IH.
  - rewrite elem_of_app, list_elem_of_singleton, IH. done.
Qed.

Lemma NoDup_first_seen keys : NoDup (first_seen keys).
Proof.
  induction keys as [|k keys IH] using rev_ind; [constructor|].
  rewrite first_seen_snoc. destruct (decide (k ∈ first_seen keys)); [done|].
  apply NoDup_app. split; [done|]. split; [|apply NoDup_singleton].
  intros x Hx Hx'. apply list_elem_of_singleton in Hx' as ->. done.
Qed.

Lemma length_first_seen keys :
  length (first_seen keys) = size (list_to_set keys : gset string).
Proof.
  rewrite <- (size_list_to_set (C:=gset string) (first_seen keys)) by apply NoDup_first_seen.
  f_equal. apply set_eq. intros k. rewrite !elem_of_list_to_set. apply elem_of_first_seen.
Qed.

Lemma get_of_elem {V : Type} (c : list (string * V)) k v :
  NoDup c.*1 -> (k, v) ∈ c -> OrderedDict.get k c = Some v.
Proof.
  induction c as [|[k' v'] c IH]; intros Hnd Hin; [by apply elem_of_nil in Hin|].
  csimpl in Hnd. apply NoDup_cons in Hnd as [Hk' Hnd]. simpl.
  apply elem_of_cons in Hin as [Heq|Hin].
  - injection Heq as -> ->. by rewrite decide_True.
  - rewrite decide_False; [by apply IH|]. intros ->. apply Hk'.
    by apply (list_elem_of_fmap_2 fst) in Hin.
Qed.

(** The entries [most_common] returns are entries of the counter, no key
    twice. *)
Lemma most_common_sublist n c :
  Counter.most_common n c ⊆ c /\ (NoDup c.*1 -> NoDup (Counter.most_common n c).*1).
Proof.
  unfold Counter.most_common. split.
  - intros x Hx. rewrite <- (sorted_desc_perm c). by eapply subseteq_take.
  - intros Hnd. rewrite fmap_take.
    eapply sublist_NoDup; [|apply sublist_take]. by rewrite (sorted_desc_perm c).
Qed.

Lemma Counter_total_app c1 c2 : Counter.total (c1 ++ c2) = Counter.total c1 + Counter.total c2.
Proof.
  unfold Counter.total. induction c1 as [|[k v] c1 IH]; csimpl; [done|].
  rewrite IH. lia.
Qed.

Lemma Counter_total_perm c1 c2 : c1 ≡ₚ c2 -> Counter.total c1 = Counter.total c2.
Proof.
  unfold Counter.total.
  induction 1 as [|[k v] c1 c2 _ IH|[k1 v1] [k2 v2] c|c1 c2 c3 _ IH1 _ IH2]; csimpl;
    [done|by rewrite IH|lia|congruence].
Qed.

Lemma Counter_total_nonneg c : Forall (fun p => 1 <= p.2) c -> 0 <= Counter.total c.
Proof.
  unfold Counter.total. induction 1 as [|[k v] c Hv _ IH]; csimpl; [done|].
  simpl in Hv. lia.
Qed.

(** Every key a tally holds has been counted at least once. *)
Lemma tally_positive keys : Forall (fun p => 1 <= p.2) (tally keys).
Proof.
  apply Forall_forall. intros [k n] Hin. simpl.
  assert (Hnd : NoDup (tally keys).*1) by (rewrite tally_keys; apply NoDup_first_seen).
  pose proof (get_of_elem _ _ _ Hnd Hin) as Hget.
  assert (Hcount : Counter.count k (tally keys) = n) by (unfold Counter.count; by rewrite Hget).
  rewrite tally_count in Hcount. subst n.
  apply (list_elem_of_fmap_2 fst) in Hin. simpl in Hin.
  rewrite tally_keys, elem_of_first_seen in Hin.
  apply (len_pos_elem _ k). apply list_elem_of_filter. by split.
Qed.

(** X7. After any feed to a new detector [get_stats] reports as
    [unique_sources] the number of distinct source addresses of the feed,
    and each entry of [top_sources] pairs an address with the number of
    events of the feed that came from it, which is at least one; no address
    is listed twice.  The same holds of [unique_targets] and [top_targets]
    for the destination addresses. *)
Theorem top_entries_report_event_counts :
  forall feed interface threshold window,
    exists stats self,
      (run feed ;; get_stats) (init interface threshold window) = Ok (stats, self)
      /\ unique_sources stats = Z.of_nat (size (list_to_set (sources feed) : gset string))
      /\ unique_targets stats = Z.of_nat (size (list_to_set (targets feed) : gset string))
      /\ NoDup (top_sources stats).*1
      /\ NoDup (top_targets stats).*1
      /\ (forall mac n, (mac, n) ∈ top_sources stats ->
            n = len (filter (fun k => k = mac) (sources feed)) /\ 1 <= n)
      /\ (forall mac n, (mac, n) ∈ top_targets stats ->
            n = len (filter (fun k => k = mac) (targets feed)) /\ 1 <= n).
Proof.
  intros feed i th w. destruct (run_ok feed (init i th w)) as (s & Hs).
  eexists _, s. split.
  { erewrite bind_ok by exact Hs. apply get_stats_ok. }
  destruct (counters_run _ _ _ _ _ Hs) as [Hsrc Htgt]. simpl. rewrite Hsrc, Htgt.
  assert (Hentry : forall keys mac n,
             (mac, n) ∈ Counter.most_common 5 (tally keys) ->
             n = len (filter (fun k => k = mac) keys) /\ 1 <= n).
  { intros keys mac n Hin. apply (proj1 (most_common_sublist 5 (tally keys))) in Hin.
    pose proof (tally_positive keys) as Hpos. rewrite Forall_forall in Hpos.
    split; [|by apply (Hpos (mac, n))].
    assert (Hnd : NoDup (tally keys).*1) by (rewrite tally_keys; apply NoDup_first_seen).
    pose proof (get_of_elem _ _ _ Hnd Hin) as Hget.
    rewrite <- tally_count. unfold Counter.count. by rewrite Hget. }
  assert (Hlen : forall keys, len (tally keys) = Z.of_nat (size (list_to_set keys : gset string))).
  { intros keys. unfold len. rewrite <- length_first_seen, <- tally_keys.
    by rewrite length_fmap. }
  assert (Hnd : forall keys, NoDup (Counter.most_common 5 (tally keys)).*1).
  { intros keys. apply most_common_sublist. rewrite tally_keys. apply NoDup_first_seen. }
  split; [apply Hlen|]. split; [apply Hlen|].
  split; [apply Hnd|]. split; [apply Hnd|].
  split; intros mac n Hin; by apply Hentry.
Qed.

(** X8. The counts listed in [top_sources] never sum to more than
    [total_events]; when at most five distinct sources were seen they list
    every source and sum to [total_events] exactly. *)
Theorem top_sources_sum :
  forall feed interface threshold window,
    exists stats self,
      (run feed ;; get_stats) (init interface threshold window) = Ok (stats, self)
      /\ Counter.total (top_sources stats) <= total_events stats
      /\ (unique_sources stats <= 5 ->
          top_sources stats ≡ₚ source_counts self
          /\ Counter.total (top_sources stats) = total_events stats).
Proof.
  intros feed i th w. destruct (run_ok feed (init i th w)) as (s & Hs).
  eexists _, s. split.
  { erewrite bind_ok by exact Hs. apply get_stats_ok. }
  simpl.
  assert (Hc : consistent s).
  { apply (run_invariant consistent feed _ _) in Hs; [done| |by repeat split].
    intros e t s1 s2 HP Hstep. apply process_event_processed in Hstep.
    by eapply consistent_processed. }
  destruct Hc as (Htot & _ & _). rewrite <- Htot.
  destruct (counters_run _ _ _ _ _ Hs) as [Hsrc _].
  unfold Counter.most_common.
  pose proof (take_drop 5 (Counter.sorted_desc (source_counts s))) as Hsplit.
  pose proof (Counter_total_perm _ _ (sorted_desc_perm (source_counts s))) as Hperm.
  rewrite <- Hsplit, Counter_total_app in Hperm.
  split.
  - assert (0 <= Counter.total (drop 5 (Counter.sorted_desc (source_counts s)))); [|lia].
    apply Counter_total_nonneg. apply Forall_drop.
    rewrite (sorted_desc_perm (source_counts s)), Hsrc. apply tally_positive.
  - intros Hfew. unfold len in Hfew.
    rewrite take_ge by (rewrite (Permutation_length (sorted_desc_perm _)); lia).
    split; [apply sorted_desc_perm | apply Counter_total_perm, sorted_desc_perm].
Qed.

(** * Properties of the parser, the monitor loop and the report *)

(** ** Strings *)

Ltac by_cases_on_ascii c := destruct c as [[] [] [] [] [] [] [] []]; vm_compute; done.

Lemma lower_char_idemp c : lower_char (lower_char c) = lower_char c.
Proof. by_cases_on_ascii c. Qed.

Lemma is_space_lower_char c : is_space (lower_char c) = is_space c.
Proof. by_cases_on_ascii c. Qed.

Lemma lower_char_colon c : lower_char c = ":"%char <-> c = ":"%char.
Proof. by_cases_on_ascii c. Qed.

Lemma lower_idemp s : lower (lower s) = lower s.
Proof. induction s as [|c s IH]; simpl; [done|]. by rewrite lower_char_idemp, IH. Qed.

Lemma length_lower s : String.length (lower s) = String.length s.
Proof. induction s as [|c s IH]; simpl; [done|]. by rewrite IH. Qed.

Lemma count_colon_lower s : count_char ":" (lower s) = count_char ":" s.
Proof.
  induction s as [|c s IH]; simpl; [done|]. rewrite IH. f_equal.
  destruct (decide (c = ":"%char)) as [->|Hne]; [done|].
  rewrite decide_False; [done|]. by rewrite lower_char_colon.
Qed.

Lemma mac_shaped_lower s : mac_shaped (lower s) = mac_shaped s.
Proof. unfold mac_shaped. by rewrite length_lower, count_colon_lower. Qed.

Lemma lower_app s1 s2 : lower (s1 +:+ s2) = lower s1 +:+ lower s2.
Proof. induction s1 as [|c s1 IH]; simpl; [done|]. by rewrite IH. Qed.

Lemma lower_empty s : lower s = "" <-> s = "".
Proof. by destruct s. Qed.

(** Lowering a line lowers its words. *)
Lemma split_from_lower word s :
  split_from (lower word) (lower s) = lower <$> split_from word s.
Proof.
  revert word. induction s as [|c s IH]; intros word; simpl.
  - destruct (decide (word = "")) as [->|Hne]; [done|].
    rewrite decide_False by (by rewrite lower_empty). done.
  - rewrite is_space_lower_char. destruct (is_space c).
    + rewrite fmap_app, <- (IH ""). f_equal.
      destruct (decide (word = "")) as [->|Hne]; [done|].
      rewrite decide_False by (by rewrite lower_empty). done.
    + rewrite <- IH, lower_app. done.
Qed.

Lemma length_append s1 s2 :
  String.length (s1 +:+ s2) = (String.length s1 + String.length s2)%nat.
Proof. induction s1 as [|c s1 IH]; simpl; [done|]. by rewrite IH. Qed.

(** The words of a line and the separators between them fit in the line. *)
Lemma split_from_room word s :
  (sum_list_with (fun w => S (String.length w)) (split_from word s)
   <= S (String.length word + String.length s))%nat.
Proof.
  revert word. induction s as [|c s IH]; intros word; simpl.
  - destruct (decide (word = "")); simpl; lia.
  - destruct (is_space c).
    + rewrite sum_list_with_app. specialize (IH ""). simpl in IH.
      destruct (decide (word = "")); simpl; lia.
    + specialize (IH (word +:+ String c "")). rewrite length_append in IH. simpl in IH. lia.
Qed.

Lemma sum_list_with_filter_le {A : Type} (f : A -> nat) (P : A -> Prop)
    `{!forall x, Decision (P x)} (l : list A) :
  (sum_list_with f (filter P l) <= sum_list_with f l)%nat.
Proof.
  induction l as [|x l IH]; [done|]. rewrite filter_cons.
  destruct (decide (P x)); simpl; lia.
Qed.

(** Two address-shaped words need a line of 35 characters. *)
Lemma two_macs_need_room line mac0 mac1 macs :
  filter (fun part => mac_shaped part) (split line) = mac0 :: mac1 :: macs ->
  (35 <= String.length line)%nat.
Proof.
  intros Hf.
  pose proof (sum_list_with_filter_le (fun w => S (String.length w))
                (fun part => mac_shaped part) (split line)) as Hle.
  pose proof (split_from_room "" line) as Hroom. fold (split line) in Hroom.
  assert (Hshape : forall m, m ∈ [mac0; mac1] -> String.length m = 17%nat).
  { intros m Hm.
    assert (Hin : m ∈ filter (fun part => mac_shaped part) (split line)).
    { rewrite Hf. apply elem_of_cons in Hm as [->|Hm]; [by left|].
      apply list_elem_of_singleton in Hm as ->. right. by left. }
    apply list_elem_of_filter in Hin as [Hin _]. unfold mac_shaped in Hin.
    apply andb_prop_elim in Hin as [Hin _]. by apply Is_true_true, Nat.eqb_eq in Hin. }
  rewrite Hf in Hle. simpl in Hle.
  rewrite (Hshape mac0), (Hshape mac1) in Hle
    by (rewrite !elem_of_cons; tauto).
  simpl in Hroom. lia.
Qed.

(** ** One line *)

Lemma parse_frame_body_ok line now_iso current_time self :
  exists self', parse_frame_body line now_iso current_time self = Ok (tt, self').
Proof.
  unfold parse_frame_body. destruct (lower <$> _) as [|m0 [|m1 rest]]; try by exists self.
  destruct (process_event_ok
              {| DeauthEvent.timestamp := now_iso; DeauthEvent.source_mac := m0;
                 DeauthEvent.dest_mac := m1;
                 DeauthEvent.bssid := match rest with mac2 :: _ => mac2 | [] => m0 end;
                 DeauthEvent.frame_type :=
                   if str_in "Deauthentication" line then "deauth" else "disassoc";
                 DeauthEvent.reason_code := 0; DeauthEvent.channel := None |}
              current_time self) as (s & Hs & _).
  eauto.
Qed.

Lemma parse_frame_is_body line now_iso current_time self :
  parse_frame line now_iso current_time self
  = parse_frame_body line now_iso current_time self.
Proof.
  unfold parse_frame.
  destruct (parse_frame_body_ok line now_iso current_time self) as (s & ->). done.
Qed.

Lemma macs_of_shape line m : m ∈ macs_of line -> mac_shaped m /\ lower m = m.
Proof.
  unfold macs_of. intros Hm. apply list_elem_of_fmap in Hm as (p & -> & Hp).
  apply list_elem_of_filter in Hp as [Hp _].
  rewrite mac_shaped_lower, lower_idemp. done.
Qed.

(** What [parse_frame] does, by the number of addresses in the line. *)
Lemma parse_frame_cases line now_iso current_time self :
  ((length (macs_of line) < 2)%nat
   /\ parse_frame line now_iso current_time self = Ok (tt, self))
  \/ exists e,
      parse_frame line now_iso current_time self = process_event e current_time self
      /\ well_formed e
      /\ DeauthEvent.timestamp e = now_iso
      /\ [DeauthEvent.source_mac e; DeauthEvent.dest_mac e] = take 2 (macs_of line)
      /\ DeauthEvent.bssid e = default (DeauthEvent.source_mac e) (macs_of line !! 2%nat)
      /\ DeauthEvent.frame_type e
         = if str_in "Deauthentication" line then "deauth" else "disassoc".
Proof.
  rewrite parse_frame_is_body. unfold parse_frame_body. fold (macs_of line).
  pose proof (macs_of_shape line) as Hshape.
  destruct (macs_of line) as [|m0 [|m1 rest]]; [left; by split; [simpl; lia|]..|].
  right. eexists. split; [reflexivity|]. simpl.
  assert (H0 : mac_shaped m0 /\ lower m0 = m0) by (apply Hshape; by left).
  assert (H1 : mac_shaped m1 /\ lower m1 = m1) by (apply Hshape; right; by left).
  assert (H2 : mac_shaped (match rest with mac2 :: _ => mac2 | [] => m0 end)
               /\ lower (match rest with mac2 :: _ => mac2 | [] => m0 end)
                  = match rest with mac2 :: _ => mac2 | [] => m0 end).
  { destruct rest as [|m2 rest]; [done|]. apply Hshape. right. right. by left. }
  split; [|split; [done|split; [done|split; [by destruct rest|done]]]].
  unfold well_formed. simpl.
  destruct H0, H1, H2. repeat split; try done.
  destruct (str_in _ _); [by left | by right].
Qed.

(** X9. A line in which [parse_frame] finds fewer than two addresses changes
    nothing.  Otherwise exactly one event is processed: its source and
    destination are the first two addresses of the line, its BSSID the third
    or, without a third, the source; all three are lower-case words of 17
    characters with five colons; the frame type is deauth when the line
    contains Deauthentication and disassoc in every other case; the reason
    code is 0 whatever the line says. *)
Theorem parse_frame_logs_well_formed_event :
  forall line now_iso current_time self,
    ascii_text line ->
    exists self',
      parse_frame line now_iso current_time self = Ok (tt, self')
      /\ (((length (macs_of line) < 2)%nat /\ self' = self)
          \/ exists e,
              process_event e current_time self = Ok (tt, self')
              /\ events self' = events self ++ [e]
              /\ well_formed e
              /\ DeauthEvent.timestamp e = now_iso
              /\ [DeauthEvent.source_mac e; DeauthEvent.dest_mac e] = take 2 (macs_of line)
              /\ DeauthEvent.bssid e
                 = default (DeauthEvent.source_mac e) (macs_of line !! 2%nat)
              /\ DeauthEvent.frame_type e
                 = if str_in "Deauthentication" line then "deauth" else "disassoc").
Proof.
  intros line now_iso current_time self _.
  destruct (parse_frame_cases line now_iso current_time self)
    as [[Hfew Hp]|(e & Hp & Hwf & Hts & Hmacs & Hbssid & Hft)].
  - exists self. split; [done|]. by left.
  - destruct (process_event_ok e current_time self) as (s & Hs & Hproc).
    exists s. split; [by rewrite Hp|]. right. exists e.
    split; [done|]. split; [apply (pr_events _ _ _ _ Hproc)|]. done.
Qed.

(** X10. A line of fewer than 35 characters cannot hold two addresses and a
    separator: [parse_frame] leaves the detector as it was. *)
Theorem short_line_is_ignored :
  forall line now_iso current_time self,
    ascii_text line ->
    (String.length line < 35)%nat ->
    parse_frame line now_iso current_time self = Ok (tt, self).
Proof.
  intros line now_iso current_time self _ Hshort.
  rewrite parse_frame_is_body. unfold parse_frame_body.
  destruct (filter _ (split line)) as [|m0 [|m1 rest]] eqn:E; try done.
  apply two_macs_need_room in E. lia.
Qed.

Lemma filter_mac_shaped_lower (parts : list string) :
  filter (fun part => mac_shaped part) (lower <$> parts)
  = lower <$> filter (fun part => mac_shaped part) parts.
Proof.
  induction parts as [|p parts IH]; [done|]. csimpl. rewrite !filter_cons, IH.
  rewrite mac_shaped_lower. by destruct (decide (mac_shaped p)).
Qed.

(** The addresses of a line are those of the line in lower case. *)
Lemma macs_of_lower line :
  macs_of line = filter (fun part => mac_shaped part) (split (lower line)).
Proof.
  unfold macs_of, split. change "" with (lower "") at 2.
  by rewrite split_from_lower, filter_mac_shaped_lower.
Qed.

(** X11. Letter case in the captured text does not split the tracking of a
    pair of stations: two lines that are equal up to the case of their
    letters lead to the same window store and the same source and target
    counters. *)
Theorem letter_case_does_not_split_tracking :
  forall line1 line2 now_iso1 now_iso2 current_time self,
    ascii_text line1 -> ascii_text line2 ->
    lower line1 = lower line2 ->
    exists self1 self2,
      parse_frame line1 now_iso1 current_time self = Ok (tt, self1)
      /\ parse_frame line2 now_iso2 current_time self = Ok (tt, self2)
      /\ deauth_counts self1 = deauth_counts self2
      /\ source_counts self1 = source_counts self2
      /\ target_counts self1 = target_counts self2
      /\ len (events self1) = len (events self2)
      /\ len (alerts self1) = len (alerts self2).
Proof.
  intros line1 line2 iso1 iso2 t self _ _ Hlow.
  assert (Hmacs : macs_of line1 = macs_of line2) by (by rewrite !macs_of_lower, Hlow).
  destruct (parse_frame_cases line1 iso1 t self)
    as [[Hfew1 Hp1]|(e1 & Hp1 & _ & _ & Hm1 & _)];
    destruct (parse_frame_cases line2 iso2 t self)
      as [[Hfew2 Hp2]|(e2 & Hp2 & _ & _ & Hm2 & _)].
  - by exists self, self.
  - exfalso. rewrite <- Hmacs in Hm2. apply (f_equal length) in Hm2.
    rewrite length_take in Hm2. cbn [length] in Hm2. lia.
  - exfalso. rewrite Hmacs in Hm1. apply (f_equal length) in Hm1.
    rewrite length_take in Hm1. cbn [length] in Hm1. lia.
  - destruct (process_event_ok e1 t self) as (s1 & Hs1 & Hproc1).
    destruct (process_event_ok e2 t self) as (s2 & Hs2 & Hproc2).
    exists s1, s2. split; [by rewrite Hp1|]. split; [by rewrite Hp2|].
    rewrite Hmacs, <- Hm2 in Hm1. injection Hm1 as Hsrc Hdst.
    assert (Hkey : key_of e1 = key_of e2) by (unfold key_of; by rewrite Hsrc, Hdst).
    assert (Hpr : pruned self e1 t = pruned self e2 t) by (unfold pruned; by rewrite Hkey).
    rewrite (pr_deauth_counts _ _ _ _ Hproc1), (pr_deauth_counts _ _ _ _ Hproc2),
      (pr_source_counts _ _ _ _ Hproc1), (pr_source_counts _ _ _ _ Hproc2),
      (pr_target_counts _ _ _ _ Hproc1), (pr_target_counts _ _ _ _ Hproc2),
      (pr_events _ _ _ _ Hproc1), (pr_events _ _ _ _ Hproc2),
      (pr_alerts _ _ _ _ Hproc1), (pr_alerts _ _ _ _ Hproc2), Hsrc, Hdst, Hkey, Hpr.
    rewrite !len_app_singleton.
    repeat split. destruct (decide _); [|done]. by rewrite !len_app_singleton.
Qed.

(** ** The monitor loop *)

Lemma monitor_loop_events reads self :
  Forall (fun r => ascii_text r.1.1) reads ->
  exists self' new,
    monitor_loop reads self = Ok (tt, self')
    /\ events self' = events self ++ new
    /\ Forall well_formed new
    /\ (length new <= length reads)%nat.
Proof.
  revert self. induction reads as [|[[line iso] t] reads IH]; intros self Hascii.
  - exists self, []. by rewrite app_nil_r.
  - apply Forall_cons in Hascii as [_ Hascii]. simpl.
    assert (Hstep : exists s new,
               (if decide (line = "") then mret tt else parse_frame line iso t) self
               = Ok (tt, s)
               /\ events s = events self ++ new
               /\ Forall well_formed new /\ (length new <= 1)%nat).
    { destruct (decide (line = ""));
        [exists self, []; rewrite app_nil_r; repeat split; simpl; try done; lia|].
      destruct (parse_frame_cases line iso t self)
        as [[_ Hp]|(e & Hp & Hwf & _)].
      - exists self, []. rewrite app_nil_r. repeat split; simpl; try done; lia.
      - destruct (process_event_ok e t self) as (s & Hs & Hproc).
        exists s, [e]. rewrite Hp. split; [done|].
        split; [apply (pr_events _ _ _ _ Hproc)|]. split; [by constructor|done]. }
    destruct Hstep as (s & new1 & Hs & Hev1 & Hwf1 & Hlen1).
    destruct (IH s Hascii) as (s' & new2 & Hs' & Hev2 & Hwf2 & Hlen2).
    exists s', (new1 ++ new2). split; [by erewrite bind_ok by exact Hs|].
    split; [by rewrite Hev2, Hev1, app_assoc|].
    split; [by apply Forall_app|]. rewrite length_app. lia.
Qed.

Lemma mac_shaped_length s : mac_shaped s -> String.length s = 17%nat.
Proof.
  unfold mac_shaped. intros H. apply andb_prop_elim in H as [H _].
  by apply Is_true_true, Nat.eqb_eq in H.
Qed.

(** X12. Whatever lines the monitor loop reads, every event it logs is
    well-formed, it logs at most one event for each line, and two logged
    events share a key of the window store only when they have the same
    source and the same destination: no window mixes two pairs of
    stations. *)
Theorem monitor_logs_well_formed_events :
  forall reads interface threshold window,
    Forall (fun r => ascii_text r.1.1) reads ->
    exists self,
      monitor_loop reads (init interface threshold window) = Ok (tt, self)
      /\ Forall well_formed (events self)
      /\ len (events self) <= len reads
      /\ forall e1 e2,
           e1 ∈ events self -> e2 ∈ events self ->
           key_of e1 = key_of e2 ->
           DeauthEvent.source_mac e1 = DeauthEvent.source_mac e2
           /\ DeauthEvent.dest_mac e1 = DeauthEvent.dest_mac e2.
Proof.
  intros reads i th w Hascii.
  destruct (monitor_loop_events reads (init i th w) Hascii) as (s & new & Hs & Hev & Hwf & Hlen).
  simpl in Hev. subst new. exists s. split; [done|]. split; [done|].
  split; [unfold len; lia|].
  intros e1 e2 H1 H2 Hkey. rewrite Forall_forall in Hwf.
  apply key_of_inj; [|done].
  destruct (Hwf _ H1) as (Hm1 & _), (Hwf _ H2) as (Hm2 & _).
  by rewrite !mac_shaped_length.
Qed.

(** ** The saved report *)

Lemma last_n_suffix {A : Type} n (l : list A) : last_n n l `suffix_of` l.
Proof. unfold last_n. apply suffix_drop. Qed.

Lemma length_last_n {A : Type} n (l : list A) : length (last_n n l) = min n (length l).
Proof. unfold last_n. rewrite length_drop. lia. Qed.

(** X13. The report [main] saves holds every alert, as many as
    [total_alerts] says, but only the end of the event log: its events are
    the last 100 logged, all of them when there are no more than 100, while
    [total_events] still counts every event.  Building the report leaves the
    detector as it was. *)
Theorem saved_report_keeps_last_hundred_events :
  forall self,
    exists report,
      main_output self = Ok (report, self)
      /\ report_alerts report = alerts self
      /\ total_alerts (report_stats report) = len (report_alerts report)
      /\ total_events (report_stats report) = len (events self)
      /\ report_events report `suffix_of` events self
      /\ length (report_events report) = min 100 (length (events self))
      /\ ((length (events self) <= 100)%nat -> report_events report = events self).
Proof.
  intros self. eexists. split; [reflexivity|].
  cbn [report_alerts report_stats report_events total_alerts total_events].
  split; [done|]. split; [done|]. split; [done|].
  split; [apply last_n_suffix|]. split; [apply length_last_n|].
  intros Hle. unfold last_n. replace (length (events self) - 100)%nat with 0%nat by lia.
  done.
Qed.

(** ** Counting when nothing is pruned *)

Lemma len_at_key_history key feed : len (history feed key) = len (at_key key feed).
Proof. unfold history, at_key, len. by rewrite length_fmap. Qed.

Lemma history_elem feed key t : t ∈ history feed key -> t ∈ feed.*2.
Proof.
  unfold history. intros Ht. apply list_elem_of_fmap in Ht as ([e t'] & -> & Hin).
  apply list_elem_of_filter in Hin as [_ Hin]. by apply (list_elem_of_fmap_2 snd) in Hin.
Qed.

Lemma counting_run seen feed self :
  (forall key, window_seq self key = history seen key) ->
  (forall t t', t ∈ (seen ++ feed).*2 -> t' ∈ (seen ++ feed).*2 -> t' - t < window self) ->
  exists self',
    run feed self = Ok (tt, self')
    /\ (forall key, window_seq self' key = history (seen ++ feed) key)
    /\ alerts self' = alerts self ++ counted_alerts (threshold self) seen feed.
Proof.
  revert seen self. induction feed as [|[e t] feed IH]; intros seen self Hstore Hnear.
  - exists self. simpl. by rewrite !app_nil_r.
  - destruct (process_event_ok e t self) as (s & Hs & Hp).
    assert (Ht : t ∈ (seen ++ (e, t) :: feed).*2).
    { rewrite fmap_app. apply elem_of_app. right. csimpl. by left. }
    assert (Hpr : pruned self e t = history (seen ++ [(e, t)]) (key_of e)).
    { unfold pruned. rewrite history_snoc_eq, Hstore. apply filter_all, Forall_forall.
      intros x Hx. apply Hnear; [|done]. apply elem_of_app in Hx as [Hx|Hx].
      - apply history_elem in Hx. rewrite fmap_app. apply elem_of_app. by left.
      - by apply list_elem_of_singleton in Hx as ->. }
    destruct (IH (seen ++ [(e, t)]) s) as (s' & Hs' & Hstore' & Hal).
    { intros key. destruct (decide (key = key_of e)) as [->|Hne].
      - by rewrite (window_seq_processed _ _ _ _ Hp).
      - rewrite (window_seq_processed_ne _ _ _ _ _ Hp Hne), history_snoc_ne by done.
        apply Hstore. }
    { rewrite <- app_assoc, (pr_window _ _ _ _ Hp). exact Hnear. }
    exists s'. split; [by rewrite (run_cons _ _ _ _ _ Hs)|].
    rewrite <- app_assoc in Hstore'. split; [exact Hstore'|].
    rewrite Hal, (pr_alerts _ _ _ _ Hp), (pr_threshold _ _ _ _ Hp), Hpr. simpl.
    rewrite history_snoc_eq, len_app_singleton, len_at_key_history.
    destruct (decide _); [by rewrite <- app_assoc | done].
Qed.

(** X14. When all the clock readings of a feed lie within one window of
    each other, nothing is pruned and detection is counting: after the feed
    to a new detector every key holds all its readings, and an event raises
    an alert exactly when it is at least the threshold-th event of its key,
    with that rank as the frame count, whatever the traffic at other keys
    in between. *)
Theorem detection_within_one_window_is_counting :
  forall feed interface threshold window,
    Forall (fun t => Forall (fun t' => t' - t < window) feed.*2) feed.*2 ->
    exists self,
      run feed (init interface threshold window) = Ok (tt, self)
      /\ (forall key, window_seq self key = history feed key)
      /\ alerts self = counted_alerts threshold [] feed.
Proof.
  intros feed i th w Hnear.
  destruct (counting_run [] feed (init i th w)) as (s & Hs & Hstore & Hal).
  - intros key. unfold window_seq, history. simpl. by rewrite lookup_empty.
  - intros t t' Ht Ht'. simpl in *. rewrite Forall_forall in Hnear.
    specialize (Hnear t Ht). rewrite Forall_forall in Hnear. by apply Hnear.
  - exists s. by split.
Qed.

(** ** The demonstration *)


(** ** Instances *)

Lemma nonpositive_window_counts_nothing_witness :
  exists self,
    run burst_feed (init "demo" 3 0) = Ok (tt, self)
    /\ alerts self = []
    /\ deauth_counts self !! "aa:bb:cc:dd:ee:01->11:22:33:44:55:66" = Some [].
Proof.
  destruct (nonpositive_window_counts_nothing burst_feed "demo" 3 0)
    as (s & Hs & Hkeys & _ & Hal); [lia|].
  exists s. split; [exact Hs|]. split; [apply Hal; lia|].
  apply (Hkeys (demo_event "aa:bb:cc:dd:ee:01" "11:22:33:44:55:66" "deauth") 0).
  by left.
Defined.

Lemma low_threshold_alerts_on_every_event_witness :
  exists self,
    run burst_feed (init "demo" 1 20) = Ok (tt, self)
    /\ alert_fields <$> alerts self = event_fields <$> burst_feed.*1
    /\ len (alerts self) = len burst_feed.
Proof.
  apply (low_threshold_alerts_on_every_event burst_feed "demo" 1 20). right. lia.
Defined.

Lemma stored_is_window_of_latest_reading_witness :
  exists self,
    run demo_feed demo_detector = Ok (tt, self)
    /\ forall key,
         window_seq self key =
           filter (fun t => latest (history demo_feed key) - t < 20) (history demo_feed key)
         /\ window_seq self key `suffix_of` history demo_feed key
         /\ StronglySorted Z.le (window_seq self key).
Proof.
  apply (stored_is_window_of_latest_reading demo_feed "demo" 3 20). by_evaluation.
Defined.

Lemma top_entries_report_event_counts_witness :
  4 = len (filter (fun k => k = "aa:bb:cc:dd:ee:01") (sources demo_feed)) /\ 1 <= 4.
Proof.
  destruct (top_entries_report_event_counts demo_feed "demo" 3 20)
    as (stats & s & Hs & _ & _ & _ & _ & Hsrc & _).
  apply Hsrc. vm_compute in Hs. injection Hs as <- _. by_evaluation.
Defined.

Lemma top_sources_sum_witness :
  exists stats self,
    (run demo_feed ;; get_stats) demo_detector = Ok (stats, self)
    /\ Counter.total (top_sources stats) = total_events stats.
Proof.
  destruct (top_sources_sum demo_feed "demo" 3 20) as (stats & s & Hs & _ & Hfew).
  exists stats, s. split; [exact Hs|]. apply Hfew.
  vm_compute in Hs. injection Hs as <- _. by_evaluation.
Defined.

Lemma parse_frame_logs_well_formed_event_witness :
  exists self',
    parse_frame sample_line "2024-01-01T12:00:01" 0 demo_detector = Ok (tt, self')
    /\ (((length (macs_of sample_line) < 2)%nat /\ self' = demo_detector)
        \/ exists e,
            process_event e 0 demo_detector = Ok (tt, self')
            /\ events self' = events demo_detector ++ [e]
            /\ well_formed e
            /\ DeauthEvent.timestamp e = "2024-01-01T12:00:01"
            /\ [DeauthEvent.source_mac e; DeauthEvent.dest_mac e] = take 2 (macs_of sample_line)
            /\ DeauthEvent.bssid e
               = default (DeauthEvent.source_mac e) (macs_of sample_line !! 2%nat)
            /\ DeauthEvent.frame_type e
               = if str_in "Deauthentication" sample_line then "deauth" else "disassoc").
Proof.
  apply parse_frame_logs_well_formed_event. by_evaluation.
Defined.

Lemma short_line_is_ignored_witness :
  parse_frame sample_noise "2024-01-01T12:00:02" 1 used_detector = Ok (tt, used_detector).
Proof.
  apply short_line_is_ignored; [by_evaluation | vm_compute; lia].
Defined.

Lemma letter_case_does_not_split_tracking_witness :
  exists self1 self2,
    parse_frame sample_line "2024-01-01T12:00:01" 0 demo_detector = Ok (tt, self1)
    /\ parse_frame sample_line_lower "2024-01-01T12:00:05" 0 demo_detector = Ok (tt, self2)
    /\ deauth_counts self1 = deauth_counts self2
    /\ source_counts self1 = source_counts self2
    /\ target_counts self1 = target_counts self2
    /\ len (events self1) = len (events self2)
    /\ len (alerts self1) = len (alerts self2).
Proof.
  apply letter_case_does_not_split_tracking; [by_evaluation | by_evaluation | reflexivity].
Defined.

Lemma monitor_logs_well_formed_events_witness :
  exists self,
    monitor_loop sample_reads demo_detector = Ok (tt, self)
    /\ Forall well_formed (events self)
    /\ len (events self) <= len sample_reads
    /\ forall e1 e2,
         e1 ∈ events self -> e2 ∈ events self ->
         key_of e1 = key_of e2 ->
         DeauthEvent.source_mac e1 = DeauthEvent.source_mac e2
         /\ DeauthEvent.dest_mac e1 = DeauthEvent.dest_mac e2.
Proof.
  apply (monitor_logs_well_formed_events sample_reads "demo" 3 20). by_evaluation.
Defined.

Lemma saved_report_keeps_last_hundred_events_witness :
  exists report,
    main_output demo_final = Ok (report, demo_final)
    /\ report_events report = events demo_final.
Proof.
  destruct (saved_report_keeps_last_hundred_events demo_final)
    as (r & Hr & _ & _ & _ & _ & _ & Hall).
  exists r. split; [exact Hr|]. apply Hall. vm_compute. lia.
Defined.

Lemma detection_within_one_window_is_counting_witness :
  exists self,
    run demo_feed demo_detector = Ok (tt, self)
    /\ (forall key, window_seq self key = history demo_feed key)
    /\ alerts self = counted_alerts 3 [] demo_feed.
Proof.
  apply (detection_within_one_window_is_counting demo_feed "demo" 3 20). by_evaluation.
Defined.

